(** * cl: one command on every host of a cluster

    A shallow embedding of [main1.go].  The program reads an inventory
    file [hosts], looks up the cluster named on the command line, starts
    one goroutine per host that tries the keys of the directory [certs]
    one after the other, and merges what the goroutines send on two
    channels into its output and its exit code.

    Go strings are byte sequences: they are lists of [ascii] here.  The
    parts of the Go library that the program calls are written out in
    the modules [GoStrings], [GoPath], [GoNet] and [GoBufio]; what lives
    outside the process (environment variables, the remote hosts, the
    file system) is a record that the functions take as an argument.

    [unmarshal] and [run] are functions; a call that can panic returns
    a [result].  The goroutine of a host is the function [task] from
    the shared state to the shared state and the list of what it does;
    the start of [main] is [startup]; the loop of [main], with the
    signal handler and the goroutines as its surroundings, is the
    transition function [step] on labels, and a run of it is a list of
    labels. *)

From Stdlib Require Import List Ascii String ZArith Lia Bool.
From stdpp Require Import base option list gmap strings.

Open Scope string_scope.
Open Scope list_scope.

Abbreviation gostring := (list ascii).

(** A string literal stands for its bytes. *)
Coercion list_ascii_of_string : string >-> list.

Definition NL : ascii := "010"%char.
Definition CR : ascii := "013"%char.

(** The text made of the given lines, each one ended by a newline. *)
Definition unlines (ls : list gostring) : gostring :=
  concat (map (fun l => l ++ [NL]) ls).

(** ** What a Go call can do besides returning *)

Inductive runtime_error : Type :=
  | IndexOutOfRange
  | SliceBoundsOutOfRange.

Inductive result (A : Type) : Type :=
  | Returns (a : A)
  | Panic (why : runtime_error).

Arguments Returns {A} a.
Arguments Panic {A} why.

#[global] Instance result_ret : MRet result := fun _ a => Returns a.

#[global] Instance result_bind : MBind result := fun _ _ k r =>
  match r with
  | Returns a => k a
  | Panic why => Panic why
  end.

(** [s[i]]: indexing panics out of range. *)
Definition index {A : Type} (s : list A) (i : nat) : result A :=
  match s !! i with
  | Some a => Returns a
  | None => Panic IndexOutOfRange
  end.

(** ** Package strings *)

Module GoStrings.

Fixpoint HasPrefix (s p : gostring) : bool :=
  match p, s with
  | [], _ => true
  | _ :: _, [] => false
  | a :: p', b :: s' => bool_decide (a = b) && HasPrefix s' p'
  end.

Fixpoint Contains (s sub : gostring) : bool :=
  HasPrefix s sub ||
  match s with
  | [] => false
  | _ :: s' => Contains s' sub
  end.

(** [strings.Split(s, sep)] for a separator of one byte, which is what
    both call sites pass.  The result is never empty. *)
Fixpoint SplitByte (s : gostring) (sep : ascii) : list gostring :=
  match s with
  | [] => [[]]
  | c :: s' =>
      if bool_decide (c = sep) then [] :: SplitByte s' sep
      else match SplitByte s' sep with
           | p :: ps => (c :: p) :: ps
           | [] => [[c]]
           end
  end.

Definition Split (s sep : gostring) : list gostring :=
  match sep with
  | [c] => SplitByte s c
  | _ => [s]
  end.

(** The loop of [strings.Replace]: [skip] bytes of a match are still to
    be dropped, [n] replacements are still allowed ([n < 0]: no limit).
    Matches are taken leftmost first and do not overlap. *)
Fixpoint replace_from (old new : gostring) (n : Z) (skip : nat)
    (s : gostring) : gostring :=
  match s with
  | [] => []
  | c :: s' =>
      match skip with
      | S k => replace_from old new n k s'
      | O =>
          if negb (n =? 0)%Z && HasPrefix s old
          then new ++ replace_from old new (n - 1)%Z (length old - 1) s'
          else c :: replace_from old new n 0 s'
      end
  end.

(** [strings.Replace(s, old, new, n)].  With an empty [old] Go inserts
    [new] around every rune; no call of the program passes an empty
    [old] (each holds a literal byte), and that case returns [s]. *)
Definition Replace (s old new : gostring) (n : Z) : gostring :=
  match old with
  | [] => s
  | _ :: _ => replace_from old new n 0 s
  end.

Definition Join (elems : list gostring) (sep : gostring) : gostring :=
  match elems with
  | [] => []
  | e :: es => e ++ concat (map (fun x => sep ++ x) es)
  end.

(** The bytes of [s] start with a white-space rune of this width (in
    bytes); 0 when they do not.  These are the runes of
    [unicode.IsSpace] in UTF-8: U+0009..U+000D, U+0020, U+0085, U+00A0,
    U+1680, U+2000..U+200A, U+2028, U+2029, U+202F, U+205F, U+3000. *)
Definition space3 (a b c : N) : bool :=
  ((a =? 225) && (b =? 154) && (c =? 128))%N
  || ((a =? 226) && (b =? 128)
      && (((128 <=? c) && (c <=? 138)) || (c =? 168) || (c =? 169)
          || (c =? 175)))%N
  || ((a =? 226) && (b =? 129) && (c =? 159))%N
  || ((a =? 227) && (b =? 128) && (c =? 128))%N.

Definition space2 (a b : N) : bool :=
  ((a =? 194) && ((b =? 133) || (b =? 160)))%N.

Definition space1 (a : N) : bool :=
  (((9 <=? a) && (a <=? 13)) || (a =? 32))%N.

Definition space_width (s : gostring) : nat :=
  match s with
  | a :: r =>
      if space1 (N_of_ascii a) then 1
      else match r with
           | b :: r' =>
               if space2 (N_of_ascii a) (N_of_ascii b) then 2
               else match r' with
                    | c :: _ =>
                        if space3 (N_of_ascii a) (N_of_ascii b)
                             (N_of_ascii c)
                        then 3 else 0
                    | [] => 0
                    end
           | [] => 0
           end
  | [] => 0
  end.

(** The same test on the reversed bytes, for the right end. *)
Definition space_width_rev (s : gostring) : nat :=
  match s with
  | a :: r =>
      if space1 (N_of_ascii a) then 1
      else match r with
           | b :: r' =>
               if space2 (N_of_ascii b) (N_of_ascii a) then 2
               else match r' with
                    | c :: _ =>
                        if space3 (N_of_ascii c) (N_of_ascii b)
                             (N_of_ascii a)
                        then 3 else 0
                    | [] => 0
                    end
           | [] => 0
           end
  | [] => 0
  end.

Fixpoint trim_with (width : gostring -> nat) (s : gostring) : gostring :=
  match s with
  | [] => []
  | _ :: r =>
      match width s, r with
      | 1, _ => trim_with width r
      | 2, _ :: r2 => trim_with width r2
      | 3, _ :: _ :: r3 => trim_with width r3
      | _, _ => s
      end
  end.

(** [strings.TrimSpace]: leading, then trailing white-space runes. *)
Definition TrimSpace (s : gostring) : gostring :=
  rev (trim_with space_width_rev (rev (trim_with space_width s))).

End GoStrings.

(** ** Package path/filepath (Unix) *)

Module GoPath.

(** One path element on the stack of [Clean]: [..] removes the element
    before it when there is one; at the root it is dropped, and in a
    relative path it is kept. *)
Definition clean_step (rooted : bool) (stack : list gostring)
    (elem : gostring) : list gostring :=
  if bool_decide (elem = []) || bool_decide (elem = ".") then stack
  else if bool_decide (elem = "..") then
    match stack with
    | top :: below =>
        if bool_decide (top = "..")
        then if rooted then stack else elem :: stack
        else below
    | [] => if rooted then stack else [elem]
    end
  else elem :: stack.

(** [filepath.Clean]; the stack holds the last element first. *)
Definition Clean (path : gostring) : gostring :=
  match path with
  | [] => "."
  | c :: _ =>
      let rooted := bool_decide (c = "/"%char) in
      let stack := fold_left (clean_step rooted)
                     (GoStrings.SplitByte path "/"%char) [] in
      let body := GoStrings.Join (rev stack) "/" in
      if rooted then "/" ++ body
      else match body with [] => "." | _ => body end
  end.

(** [filepath.Join]: leading empty elements are skipped, the rest is
    joined with [/] and cleaned. *)
Fixpoint Join (elem : list gostring) : gostring :=
  match elem with
  | [] => []
  | [] :: rest => Join rest
  | _ :: _ => Clean (GoStrings.Join elem "/")
  end.

End GoPath.

(** ** Package net *)

Module GoNet.

Fixpoint IndexByte (s : gostring) (c : ascii) : option nat :=
  match s with
  | [] => None
  | x :: s' => if bool_decide (x = c) then Some 0 else S <$> IndexByte s' c
  end.

Fixpoint LastIndexByte (s : gostring) (c : ascii) : option nat :=
  match s with
  | [] => None
  | x :: s' =>
      match LastIndexByte s' c with
      | Some i => Some (S i)
      | None => if bool_decide (x = c) then Some 0 else None
      end
  end.

(** [net.SplitHostPort]: host, port and the error; on an error host and
    port are empty.  [i] is the last colon; a host in brackets must
    end just before it; [j] and [k] are the places from which no
    bracket may follow. *)
Definition SplitHostPort (hostport : gostring)
    : gostring * gostring * option gostring :=
  let addrErr (why : gostring) : gostring * gostring * option gostring :=
    ([], [], Some why) in
  let missingPort : gostring := "missing port in address" in
  let tooManyColons : gostring := "too many colons in address" in
  match LastIndexByte hostport ":"%char with
  | None => addrErr missingPort
  | Some i =>
      let finish (hst : gostring) (j k : nat) :=
        if bool_decide (IndexByte (drop j hostport) "["%char <> None)
        then addrErr "unexpected '[' in address"
        else if bool_decide (IndexByte (drop k hostport) "]"%char <> None)
        then addrErr "unexpected ']' in address"
        else (hst, drop (i + 1) hostport, None) in
      if bool_decide (hostport !! 0 = Some "["%char) then
        match IndexByte hostport "]"%char with
        | None => addrErr "missing ']' in address"
        | Some end_ =>
            if bool_decide (end_ + 1 = length hostport)
            then addrErr missingPort
            else if bool_decide (end_ + 1 = i)
            then finish (drop 1 (take end_ hostport)) 1 (end_ + 1)
            else if bool_decide (hostport !! (end_ + 1) = Some ":"%char)
            then addrErr tooManyColons
            else addrErr missingPort
        end
      else
        let hst := take i hostport in
        if bool_decide (IndexByte hst ":"%char <> None)
        then addrErr tooManyColons
        else finish hst 0 0
  end.

(** [net.JoinHostPort]: a host with a colon is put in brackets.  (Old
    releases of Go treat a host with a percent sign in their own way,
    here and in [SplitHostPort]; the model follows the current ones.) *)
Definition JoinHostPort (hst port : gostring) : gostring :=
  if bool_decide (IndexByte hst ":"%char <> None)
  then "[" ++ hst ++ "]:" ++ port
  else hst ++ ":" ++ port.

End GoNet.

(** ** Package bufio *)

Module GoBufio.

(** The line held reversed in [line_rev], without one trailing carriage
    return. *)
Definition dropCR_rev (line_rev : gostring) : gostring :=
  match line_rev with
  | c :: r => if bool_decide (c = CR) then rev r else rev line_rev
  | [] => []
  end.

Definition MaxScanTokenSize : Z := 65536.

(** The tokens that the calls of [Scan] of a [bufio.Scanner] with the
    split function [ScanLines] hand out, until [Scan] reports false:
    lines without their end-of-line marker; a last line that has no
    newline counts when it is not empty.  A line that does not fit the
    buffer of [MaxScanTokenSize] bytes ends the scan ([unmarshal] does
    not look at the scanner's error).  [n] is the length of
    [line_rev]. *)
Fixpoint scan_from (line_rev : gostring) (n : Z) (data : gostring)
    : list gostring :=
  match data with
  | [] =>
      match line_rev with
      | [] => []
      | _ :: _ => [dropCR_rev line_rev]
      end
  | c :: rest =>
      if bool_decide (c = NL) then dropCR_rev line_rev :: scan_from [] 0 rest
      else if (n + 1 <? MaxScanTokenSize)%Z
      then scan_from (c :: line_rev) (n + 1)%Z rest
      else []
  end.

Definition Scan (data : gostring) : list gostring := scan_from [] 0%Z data.

Definition defaultBufSize : Z := 4096.

(** The lines that successive calls of [ReadLine] of a [bufio.Reader]
    of the default size return up to the end of the file, for a caller
    that does not look at [isPrefix]: a line that fills the buffer is
    handed out in pieces, and a carriage return at the end of a full
    buffer is kept for the next piece. *)
Fixpoint read_from (frag_rev : gostring) (n : Z) (data : gostring)
    : list gostring :=
  match data with
  | [] =>
      match frag_rev with
      | [] => []
      | _ :: _ => [rev frag_rev]
      end
  | c :: rest =>
      if bool_decide (c = NL) then dropCR_rev frag_rev :: read_from [] 0 rest
      else if (n + 1 <? defaultBufSize)%Z
      then read_from (c :: frag_rev) (n + 1)%Z rest
      else if bool_decide (c = CR)
      then rev frag_rev :: read_from [CR] 1 rest
      else rev (c :: frag_rev) :: read_from [] 0 rest
  end.

Definition ReadLines (data : gostring) : list gostring :=
  read_from [] 0%Z data.

End GoBufio.

(** ** The inventory *)

Record host : Type := mkHost {
  user : gostring;
  addr : gostring;
  identity : gostring
}.

#[global] Instance host_eq_dec : EqDecision host.
Proof. solve_decision. Defined.

(** The two variables that [unmarshal] reads with [os.Getenv]. *)
Record environ : Type := mkEnviron {
  USER : gostring;
  HOME : gostring
}.

Abbreviation inventory := (gmap gostring (list host)).

(** Lines 57-60 and 66-95 of [unmarshal]: the record of one host line.
    [line] is trimmed, not empty and does not end in a colon.  The
    indexing of line 71 panics when the second part is empty. *)
Definition host_entry (e : environ) (line : gostring) : result host :=
  let h_user := USER e in
  let h_identity := GoPath.Join [HOME e; ".ssh" : gostring; "id_rsa" : gostring] in
  '(h_identity, line) ←
    (if GoStrings.Contains line " " then
       let parts := GoStrings.Split line " " in
       h_identity ← index parts 1;
       c ← index h_identity 0;
       let h_identity :=
         if bool_decide (c = "~"%char)
         then GoStrings.Replace h_identity "~" (HOME e) 1
         else h_identity in
       line ← index parts 0;
       mret (h_identity, line)
     else mret (h_identity, line));
  '(h_user, line) ←
    (if GoStrings.Contains line "@" then
       let parts := GoStrings.Split line "@" in
       h_user ← index parts 0;
       line ← index parts 1;
       mret (h_user, line)
     else mret (h_user, line));
  let '(hst, port, _) := GoNet.SplitHostPort line in
  let hst := if bool_decide (hst = []) then line else hst in
  let port : gostring := if bool_decide (port = []) then "22" : gostring else port in
  mret {| user := h_user; addr := GoNet.JoinHostPort hst port;
          identity := h_identity |}.

(** A trimmed line that is not empty is a section header when its last
    byte is a colon. *)
Definition is_header (line : gostring) : bool :=
  bool_decide (line !! (length line - 1) = Some ":"%char).

(** One turn of the loop of [unmarshal] (lines 44-97) on the text of one
    token, with the map [m] and the current section [curr]. *)
Definition unmarshal_line (e : environ) (m : inventory) (curr : gostring)
    (text : gostring) : result (inventory * gostring) :=
  let line := GoStrings.TrimSpace text in
  if bool_decide (line = []) then mret (m, curr)
  else
    let end_ := length line - 1 in
    if is_header line then mret (m, take end_ line)
    else
      let m := match m !! curr with
               | Some _ => m
               | None => <[curr := []]> m
               end in
      h ← host_entry e line;
      mret (<[curr := default [] (m !! curr) ++ [h]]> m, curr).

Fixpoint unmarshal_loop (e : environ) (m : inventory) (curr : gostring)
    (tokens : list gostring) : result inventory :=
  match tokens with
  | [] => mret m
  | text :: rest =>
      '(m', curr') ← unmarshal_line e m curr text;
      unmarshal_loop e m' curr' rest
  end.

Definition unmarshal (e : environ) (r : gostring) : result inventory :=
  unmarshal_loop e ∅ [] (GoBufio.Scan r).

(** ** The remote side and the operating system *)

(** An error is the text that its method [Error] gives. *)
Abbreviation error := gostring.

(** A Go pair of a value and an error. *)
Inductive try (A : Type) : Type :=
  | Ok (a : A)
  | Err (e : error).

Arguments Ok {A} a.
Arguments Err {A} e.

(** The error that [sess.CombinedOutput] returns next to the output:
    none, an [*ssh.ExitError] (the command ran and left with a status
    that is not zero), or another one. *)
Inductive cmd_status : Type :=
  | CmdDone
  | ExitError (e : error)
  | OtherError (e : error).

(** The calls that [run] makes.  [Dial] covers the configuration with
    the user, the signer and the timeout of 60 seconds: a timeout is one
    of its errors. *)
Record remote : Type := mkRemote {
  signer : Type;
  client : Type;
  session : Type;
  ReadFile : gostring -> try gostring;
  ParsePrivateKey : gostring -> try signer;
  Dial : gostring -> gostring -> signer -> try client;
  NewSession : client -> try session;
  CombinedOutput : session -> gostring -> gostring * cmd_status
}.

Definition run (r : remote) (h : host) (cmd cert : gostring)
    : gostring * option error :=
  match ReadFile r cert with
  | Err e => ([], Some e)
  | Ok key =>
      match ParsePrivateKey r key with
      | Err e => ([], Some e)
      | Ok sgn =>
          match Dial r (addr h) (user h) sgn with
          | Err e => ([], Some e)
          | Ok conn =>
              match NewSession r conn with
              | Err e => ([], Some e)
              | Ok sess =>
                  match CombinedOutput r sess cmd with
                  | (b, OtherError e) => (b, Some e)
                  | (b, ExitError _) => (b, None)
                  | (b, CmdDone) => (b, None)
                  end
              end
          end
      end
  end.

(** What the process finds when it starts: the two environment
    variables; the bytes of the file [hosts] as the [ReadLine] loop of
    [main] reads them up to the end of the file, or the error that keeps
    the process from them, which is the error of [os.Open] (line 160)
    or, when [hosts_opens] says that the file can be opened, the error
    that a [ReadLine] returns in place of the end of the file (line
    173: hosts is a directory, say); the entries of the directory
    [certs] as [ioutil.ReadDir] lists them (name, and whether it is a
    directory); the error, if any, of opening [hosts] for writing; the
    errors, if any, of opening [succ.txt] for appending, of writing to
    it (with the number of bytes that were written before the error) and
    of closing it; and the remote side.  [hosts_opens] matters only
    when [hosts_in] is an error.  The scanner of [unmarshal] reads the
    file a second time and is taken to find the same bytes.  The code
    does not look at the errors of writing and closing [hosts] (lines
    220 and 221): [hosts_rewrites] records what it asks to be
    written. *)
Record system : Type := mkSystem {
  env : environ;
  hosts_in : try gostring;
  hosts_opens : bool;
  certs_in : try (list (gostring * bool));
  create_hosts : option error;
  append_succ : option error;
  write_succ : option (nat * error);
  close_succ : option error;
  net : remote
}.

(** What the process has done to the outside: the texts given as the
    format to [fmt.Fprintf] on the truncated file [hosts], latest first,
    the bytes appended to [succ.txt], and the two standard streams. *)
Record world : Type := mkWorld {
  hosts_rewrites : list gostring;
  succ_appended : gostring;
  stdout : gostring;
  stderr : gostring
}.

Definition world0 : world := mkWorld [] [] [] [].

Definition to_stdout (b : gostring) (w : world) : world :=
  mkWorld (hosts_rewrites w) (succ_appended w) (stdout w ++ b) (stderr w).

Definition to_stderr (b : gostring) (w : world) : world :=
  mkWorld (hosts_rewrites w) (succ_appended w) (stdout w) (stderr w ++ b).

Definition rewrite_hosts (format : gostring) (w : world) : world :=
  mkWorld (format :: hosts_rewrites w) (succ_appended w) (stdout w) (stderr w).

Definition append_to_succ (b : gostring) (w : world) : world :=
  mkWorld (hosts_rewrites w) (succ_appended w ++ b) (stdout w) (stderr w).

(** [fmt.Fprintf(f, format)] without operands writes a format that has
    no percent sign as it is.  What it writes for a percent directive
    is not modelled: the content is then unknown here. *)
Definition Fprintf0 (format : gostring) : option gostring :=
  if GoStrings.Contains format "%" then None else Some format.

(** The content of the file [hosts] when its writes go through: what
    the last rewrite put there, or what the process found. *)
Definition hosts_content (sys : system) (w : world) : option gostring :=
  match hosts_rewrites w with
  | format :: _ => Fprintf0 format
  | [] => match hosts_in sys with Ok data => Some data | Err _ => None end
  end.

Definition readCerts (sys : system) (w : world) : list gostring * world :=
  match certs_in sys with
  | Err e => ([], to_stdout (e ++ [NL]) w)
  | Ok r => (map fst (filter (fun ri => negb (snd ri)) r), w)
  end.

(** [log] (lines 296-313): [fmt.Fprintln] hands the text and a newline
    to the file in one write; an error of the open, of the write or of
    the close is printed with [fmt.Println]. *)
Definition log (sys : system) (text : gostring) (w : world) : world :=
  match append_succ sys with
  | Some e => to_stdout (e ++ [NL]) w
  | None =>
      match write_succ sys with
      | Some (n, e) =>
          to_stdout (e ++ [NL]) (append_to_succ (take n (text ++ [NL])) w)
      | None =>
          let w := append_to_succ (text ++ [NL]) w in
          match close_succ sys with
          | Some e => to_stdout (e ++ [NL]) w
          | None => w
          end
      end
  end.

(** ** The goroutine of one host *)

(** The variable [saveHosts] of [main], which the goroutines share, and
    the outside. *)
Record state : Type := mkState {
  saveHosts : gostring;
  outside : world
}.

(** What a goroutine does that others can see: a call of [run] with a
    key, a send on [errs], a send on [out]. *)
Inductive event : Type :=
  | Attempt (cert : gostring)
  | ErrsSend (e : error)
  | OutSend (p : gostring).

(** The line that stands for the host in [saveHosts]. *)
Definition outlog (h : host) : gostring :=
  user h ++ "@" ++ addr h ++ " " ++ identity h.

(** Lines 212 and 213: what becomes of [saveHosts] when the host has
    succeeded. *)
Definition retire (h : host) (text : gostring) : gostring :=
  let text := GoStrings.Replace text (outlog h ++ [NL]) [] (-1) in
  GoStrings.Replace text (outlog h) [] (-1).

(** The body of the goroutine (lines 204-226), run without interference;
    every send is taken to be received. *)
Fixpoint task (sys : system) (h : host) (cmd : gostring)
    (certs : list gostring) (st : state) : state * list event :=
  match certs with
  | [] => (st, [])
  | cert :: rest =>
      match run (net sys) h cmd ("certs/" ++ cert) with
      | (_, Some err) =>
          let '(st', evs) := task sys h cmd rest st in
          (st', Attempt cert :: ErrsSend err :: evs)
      | (b, None) =>
          let sh := retire h (saveHosts st) in
          match create_hosts sys with
          | Some e =>
              (mkState sh (to_stdout (e ++ [NL]) (outside st)), [Attempt cert])
          | None =>
              let w := rewrite_hosts sh (outside st) in
              let w := log sys (user h ++ "@" ++ addr h ++ " " ++ cert ++ " "
                                ++ GoStrings.Replace b [NL] [] (-1)) w in
              (mkState sh w,
               [Attempt cert; OutSend ("Host: " ++ addr h ++ [NL] ++ b)])
          end
      end
  end.

Definition attempts (evs : list event) : list gostring :=
  omap (fun ev => match ev with Attempt c => Some c | _ => None end) evs.

Definition failures (evs : list event) : list error :=
  omap (fun ev => match ev with ErrsSend e => Some e | _ => None end) evs.

Definition successes (evs : list event) : list gostring :=
  omap (fun ev => match ev with OutSend p => Some p | _ => None end) evs.

(** ** The start of [main] *)

Inductive started : Type :=
  | Exit (code : Z)
  | Crashed (why : runtime_error)
  | Spawned (hosts : list host) (cmd : gostring) (certs : list gostring)
      (st : state).

(** Lines 153-195: up to the point where the goroutines are started, one
    for each host of [Spawned].  [readCerts] is called (line 170) after
    the file hosts has been opened and before it is read; an error of
    reading it is printed to the standard output with [fmt.Println],
    which puts a space between its two operands, and the process leaves
    with [os.Exit(-1)]. *)
Definition startup (sys : system) (args : list gostring) (w : world)
    : started * world :=
  match index args 0 with
  | Panic why => (Crashed why, w)
  | Returns argv0 =>
      if bool_decide (length args < 3)
      then (Exit 1, to_stderr ("usage: cl [cluster] [commands...]" ++ [NL]) w)
      else
        match hosts_in sys with
        | Err e =>
            if hosts_opens sys
            then
              let '(certs, w) := readCerts sys w in
              (Exit (-1), to_stdout ("read err: " ++ e ++ [NL]) w)
            else (Exit 1, to_stderr (argv0 ++ ": " ++ e ++ [NL]) w)
        | Ok data =>
            let '(certs, w) := readCerts sys w in
            let sh := unlines (GoBufio.ReadLines data) in
            match unmarshal (env sys) data with
            | Panic why => (Crashed why, w)
            | Returns cluster =>
                match cluster !! default [] (args !! 1) with
                | None =>
                    (Exit 1, to_stderr (argv0 ++ ": unknown cluster" ++ [NL]) w)
                | Some hosts =>
                    let cmd := GoStrings.Join (drop 2 args) " " in
                    (Spawned hosts cmd certs (mkState sh w), w)
                end
            end
        end
  end.

(** ** The loop of [main] *)

Definition SIGINT : Z := 2.
Definition SIGKILL : Z := 9.

Definition codes : gmap Z Z := <[SIGINT := 130%Z]> (<[SIGKILL := 137%Z]> ∅).

(** The signals that [signal.Notify] asks for. *)
Definition notified (sig : Z) : bool :=
  bool_decide (sig = SIGINT) || bool_decide (sig = SIGKILL).

(** A value that a goroutine sends, and the channel it goes to. *)
Inductive message : Type :=
  | OnErrs (e : error)
  | OnOut (p : gostring).

Definition sends (evs : list event) : list message :=
  omap (fun ev => match ev with
                  | Attempt _ => None
                  | ErrsSend e => Some (OnErrs e)
                  | OutSend p => Some (OnOut p)
                  end) evs.

(** The goroutine of lines 240-244: it waits for a signal, has called
    [cancel] and not yet stored the code, or has stored it. *)
Inductive handler : Type :=
  | Waiting
  | Cancelled (sig : Z)
  | Stored.

(** The process while the loop of lines 253-291 runs.  [sending] has,
    for each goroutine of a host, what it still has to send: a send
    waits until the loop receives it.  [errs_open] and [out_open] say
    that the variables [errs] and [out] are not nil. *)
Record loop : Type := mkLoop {
  argv0 : gostring;
  sending : list (list message);
  signals : handler;
  errs_open : bool;
  out_open : bool;
  code : Z;
  crashed : option runtime_error;
  term : world
}.

Definition looping (l : loop) : bool :=
  errs_open l && out_open l && bool_decide (crashed l = None).

(** All goroutines are done: [wg.Wait] returns and both channels are
    closed. *)
Definition all_sent (l : loop) : bool :=
  forallb (fun q => bool_decide (q = [])) (sending l).

Definition cancelled (l : loop) : bool :=
  match signals l with
  | Waiting => false
  | _ => true
  end.

(** Lines 280-289: every line of [bs], newline included, goes to the
    standard output after two spaces; bytes after the last newline are
    not written. *)
Fixpoint indent_lines (line_rev : gostring) (bs : gostring) : gostring :=
  match bs with
  | [] => []
  | b :: r =>
      if bool_decide (b = NL)
      then "  " ++ rev (b :: line_rev) ++ indent_lines [] r
      else indent_lines (b :: line_rev) r
  end.

(** What can happen next: a signal arrives, the handler stores the code,
    or the [select] takes one of its cases ([i] is the goroutine whose
    send is received). *)
Inductive label : Type :=
  | Signal (sig : Z)
  | StoreCode
  | SelectDone
  | SelectErrs (i : nat)
  | SelectErrsClosed
  | SelectOut (i : nat)
  | SelectOutClosed.

Definition step (l : loop) (a : label) : option loop :=
  match a with
  | Signal sig =>
      match signals l with
      | Waiting =>
          if notified sig
          then Some (mkLoop (argv0 l) (sending l) (Cancelled sig) (errs_open l)
                       (out_open l) (code l) (crashed l) (term l))
          else None
      | _ => None
      end
  | StoreCode =>
      match signals l with
      | Cancelled sig =>
          Some (mkLoop (argv0 l) (sending l) Stored (errs_open l) (out_open l)
                  (default 0%Z (codes !! sig)) (crashed l) (term l))
      | _ => None
      end
  | SelectDone =>
      if looping l && cancelled l
      then Some (mkLoop (argv0 l) (sending l) (signals l) (errs_open l) false
                   (code l) (crashed l)
                   (to_stderr (argv0 l ++ ": context canceled" ++ [NL]) (term l)))
      else None
  | SelectErrs i =>
      match looping l, sending l !! i with
      | true, Some (OnErrs err :: q) =>
          Some (mkLoop (argv0 l) (<[i := q]> (sending l)) (signals l)
                  (errs_open l) (out_open l) 1%Z (crashed l)
                  (to_stderr (argv0 l ++ ": " ++ err ++ [NL]) (term l)))
      | _, _ => None
      end
  | SelectErrsClosed =>
      if looping l && all_sent l
      then Some (mkLoop (argv0 l) (sending l) (signals l) false (out_open l)
                   (code l) (crashed l) (term l))
      else None
  | SelectOut i =>
      match looping l, sending l !! i with
      | true, Some (OnOut p :: q) =>
          match GoNet.IndexByte p NL with
          | None =>
              Some (mkLoop (argv0 l) (<[i := q]> (sending l)) (signals l)
                      (errs_open l) (out_open l) (code l)
                      (Some SliceBoundsOutOfRange) (term l))
          | Some i' =>
              Some (mkLoop (argv0 l) (<[i := q]> (sending l)) (signals l)
                      (errs_open l) (out_open l) (code l) (crashed l)
                      (to_stdout (indent_lines [] (drop i' p))
                         (to_stderr (take i' p) (term l))))
          end
      | _, _ => None
      end
  | SelectOutClosed =>
      if looping l && all_sent l
      then Some (mkLoop (argv0 l) (sending l) (signals l) (errs_open l) false
                   (code l) (crashed l) (term l))
      else None
  end.

(** The labels in turn; [None] when one of them cannot happen. *)
Fixpoint steps (l : loop) (sched : list label) : option loop :=
  match sched with
  | [] => Some l
  | a :: rest =>
      match step l a with
      | Some l' => steps l' rest
      | None => None
      end
  end.

(** Line 293: once the loop is over, [os.Exit(code)]; a process that
    panicked leaves with status 2. *)
Definition exit_status (l : loop) : option Z :=
  match crashed l with
  | Some _ => Some 2%Z
  | None => if looping l then None else Some (code l)
  end.

(** The loop as [main] enters it (line 238), with the goroutines of the
    hosts started. *)
Definition enter_loop (sys : system) (name : gostring) (hosts : list host)
    (cmd : gostring) (certs : list gostring) (st : state) : loop :=
  mkLoop name (map (fun h => sends (snd (task sys h cmd certs st))) hosts)
    Waiting true true 0%Z None (outside st).

(** ** Concrete surroundings for the examples *)

(** A remote side on which every key file is read and parsed (the signer
    is the path of the key), the hosts accept the keys of [good], and
    every command gives [output] and [status]. *)
Definition remote_accepting (good : list gostring) (output : gostring)
    (status : cmd_status) : remote :=
  {| signer := gostring;
     client := unit;
     session := unit;
     ReadFile := fun path => Ok path;
     ParsePrivateKey := fun key => Ok key;
     Dial := fun _ _ sgn =>
       if bool_decide (sgn ∈ good) then Ok tt
       else Err ("ssh: handshake failed" : gostring);
     NewSession := fun _ => Ok tt;
     CombinedOutput := fun _ _ => (output, status) |}.

(** The user alice with the given file [hosts] and directory [certs]. *)
Definition system_of (text : gostring) (keys : try (list (gostring * bool)))
    (r : remote) : system :=
  {| env := mkEnviron "alice" "/home/alice";
     hosts_in := Ok text;
     hosts_opens := true;
     certs_in := keys;
     create_hosts := None;
     append_succ := None;
     write_succ := None;
     close_succ := None;
     net := r |}.

(** The inventory of the scenarios. *)
Definition web_text : gostring :=
  unlines ["web:" : gostring; "alice@10.0.0.1 ~/.ssh/k1" : gostring].

Definition web_host : host :=
  mkHost "alice" "10.0.0.1:22" "/home/alice/.ssh/k1".

(** ** Notions used to state the properties *)

Definition run_error (sys : system) (h : host) (cmd cert : gostring)
    : option error :=
  snd (run (net sys) h cmd ("certs/" ++ cert)).

Definition run_output (sys : system) (h : host) (cmd cert : gostring)
    : gostring :=
  fst (run (net sys) h cmd ("certs/" ++ cert)).

(** The line that [log] gets when the key [cert] has worked. *)
Definition audit_line (sys : system) (h : host) (cmd cert : gostring)
    : gostring :=
  user h ++ "@" ++ addr h ++ " " ++ cert ++ " "
  ++ GoStrings.Replace (run_output sys h cmd cert) [NL] [] (-1).

(** What the goroutine does with a key that does not work. *)
Definition failed_attempt (sys : system) (h : host) (cmd cert : gostring)
    : list event :=
  match run_error sys h cmd cert with
  | Some e => [Attempt cert; ErrsSend e]
  | None => []
  end.

Definition exit_code_ok (z : Z) : Prop :=
  z = 0%Z \/ z = 1%Z \/ z = 130%Z \/ z = 137%Z.

(** The value that a step stores in [code], if it stores one. *)
Definition assigns (l : loop) (a : label) : option Z :=
  match a, signals l with
  | StoreCode, Cancelled sig => Some (default 0%Z (codes !! sig))
  | SelectErrs _, _ => Some 1%Z
  | _, _ => None
  end.

Ltac step_cases H :=
  unfold step in H;
  repeat match type of H with
         | context [match ?x with _ => _ end] =>
             let E := fresh "E" in destruct x eqn:E; try discriminate H
         end;
  try (injection H as <-).

(** One host, one key that is refused. *)
Definition loop_one_refused : loop :=
  enter_loop
    (system_of web_text (Ok [("k1" : gostring, false)])
       (remote_accepting [] ("hi" ++ [NL]) CmdDone))
    "cl" [web_host] "echo hi" ["k1" : gostring] (mkState web_text world0).

(** The same after an interrupt whose code has been stored. *)
Definition loop_interrupted : loop :=
  default loop_one_refused
    (steps loop_one_refused [Signal SIGINT; StoreCode]).

(** A loop in which no goroutine has anything to send and no signal has
    arrived keeps the code 0. *)
Definition quiet (l : loop) : Prop :=
  all_sent l = true /\ signals l = Waiting /\ code l = 0%Z /\ crashed l = None.

Definition is_signal (a : label) : bool :=
  match a with
  | Signal _ => true
  | _ => false
  end.

(** The directory certs cannot be read. *)
Definition system_without_certs : system :=
  system_of web_text (Err "open certs: no such file or directory")
    (remote_accepting ["certs/k1" : gostring] ("hi" ++ [NL]) CmdDone).

Definition state_without_certs : state :=
  mkState web_text
    (to_stdout ("open certs: no such file or directory" ++ [NL]) world0).

(** The file hosts can be read and cannot be opened for writing; the
    key k1 works. *)
Definition system_hosts_read_only : system :=
  {| env := mkEnviron "alice" "/home/alice";
     hosts_in := Ok web_text;
     hosts_opens := true;
     certs_in := Ok [("k1" : gostring, false)];
     create_hosts := Some ("open hosts: permission denied" : gostring);
     append_succ := None;
     write_succ := None;
     close_succ := None;
     net := remote_accepting ["certs/k1" : gostring] ("hi" ++ [NL]) CmdDone |}.

(** The remote side that differs from [r] in one thing: a command that
    leaves with a status that is not zero is reported as one that has
    left with zero, with the same output. *)
Definition without_exit_status (r : remote) : remote :=
  {| signer := signer r;
     client := client r;
     session := session r;
     ReadFile := ReadFile r;
     ParsePrivateKey := ParsePrivateKey r;
     Dial := Dial r;
     NewSession := NewSession r;
     CombinedOutput := fun sess cmd =>
       match CombinedOutput r sess cmd with
       | (b, ExitError _) => (b, CmdDone)
       | other => other
       end |}.

(** The system with another remote side. *)
Definition with_net (sys : system) (r : remote) : system :=
  {| env := env sys;
     hosts_in := hosts_in sys;
     hosts_opens := hosts_opens sys;
     certs_in := certs_in sys;
     create_hosts := create_hosts sys;
     append_succ := append_succ sys;
     write_succ := write_succ sys;
     close_succ := close_succ sys;
     net := r |}.

(** A host line of the form [[user@]host[:port] [credentialPath]]. *)
Definition host_line (u : option gostring) (hp : gostring)
    (cred : option gostring) : gostring :=
  match u with Some u' => u' ++ "@" | None => [] end
  ++ hp
  ++ match cred with Some c => " " ++ c | None => [] end.

(** A leading tilde stands for the home directory. *)
Definition expand_tilde (e : environ) (c : gostring) : gostring :=
  match c with
  | x :: rest => if bool_decide (x = "~"%char) then HOME e ++ rest else c
  | [] => c
  end.

(** Lines 85-95: the address that is stored for the part [hp]. *)
Definition stored_addr (hp : gostring) : gostring :=
  let '(hst, port, _) := GoNet.SplitHostPort hp in
  GoNet.JoinHostPort (if bool_decide (hst = []) then hp else hst)
    (if bool_decide (port = []) then "22" : gostring else port).

(** An absolute path in its shortest form: a slash before each element,
    no element empty, a dot or two dots. *)
Definition abs_path (elems : list gostring) : gostring :=
  elems ≫= fun c => "/" ++ c.

Definition plain_elem (c : gostring) : Prop :=
  c <> [] /\ ("/"%char ∉ c) /\ c <> "." /\ c <> "..".

(** The host lines of the tokens, each with the name of the section it
    belongs to: the nearest header before it, or [curr] when there is no
    header before it. *)
Fixpoint sections (curr : gostring) (tokens : list gostring)
    : list (gostring * gostring) :=
  match tokens with
  | [] => []
  | text :: rest =>
      let line := GoStrings.TrimSpace text in
      if bool_decide (line = []) then sections curr rest
      else if is_header line then sections (take (length line - 1) line) rest
      else (curr, line) :: sections curr rest
  end.

(** A token of the scanner is a header, or a host line; the others are
    blank. *)
Definition header_token (text : gostring) : bool :=
  let line := GoStrings.TrimSpace text in
  negb (bool_decide (line = [])) && is_header line.

Definition host_token (text : gostring) : bool :=
  let line := GoStrings.TrimSpace text in
  negb (bool_decide (line = [])) && negb (is_header line).

(** The name that a header gives to its section. *)
Definition section_name (text : gostring) : gostring :=
  let line := GoStrings.TrimSpace text in
  take (length line - 1) line.

(** The records of the host lines of the section [c], in their order. *)
Definition hosts_of (e : environ) (c : gostring)
    (tagged : list (gostring * gostring)) : list host :=
  omap (fun cl : gostring * gostring =>
          if bool_decide (fst cl = c)
          then match host_entry e (snd cl) with
               | Returns h => Some h
               | Panic _ => None
               end
          else None) tagged.

(** The entry of a cluster after more hosts have been appended to it. *)
Definition extend (o : option (list host)) (hs : list host)
    : option (list host) :=
  match hs with
  | [] => o
  | _ :: _ => Some (default [] o ++ hs)
  end.

(** The grammar of the specification: a section header ends in a colon,
    a host entry is [[user@]host[:port] [credentialPath]]: the line is
    split at its first space into the address and the path of the
    credential, which may be left out; the address has at most one at
    sign, and neither the user nor the host with its port is empty. *)
Definition spec_address (front : gostring) : bool :=
  match GoStrings.Split front "@" with
  | [hp] => negb (bool_decide (hp = []))
  | [u; hp] => negb (bool_decide (u = [])) && negb (bool_decide (hp = []))
  | _ => false
  end.

Definition spec_host_entry (line : gostring) : bool :=
  match GoNet.IndexByte line " "%char with
  | None => spec_address line
  | Some i =>
      spec_address (take i line) && negb (bool_decide (drop (S i) line = []))
  end.

Definition spec_interpretable (line : gostring) : bool :=
  is_header line || spec_host_entry line.

(** Two sections and a host line before the first header. *)
Definition three_sections : gostring :=
  unlines ["10.0.0.9" : gostring; "web:" : gostring;
           "alice@10.0.0.1 ~/.ssh/k1" : gostring; "db:" : gostring;
           "10.0.0.2:2222" : gostring; "web:" : gostring;
           "bob@10.0.0.3" : gostring].

(** The run of the scenario: one host, one key, and the key works. *)
Definition system_k1 : system :=
  system_of web_text (Ok [("k1" : gostring, false)])
    (remote_accepting ["certs/k1" : gostring] ("hi" ++ [NL]) CmdDone).

(** A line that the scanner of [unmarshal] hands out as it is: no
    newline inside, no carriage return at the end, and short enough for
    the buffer of the scanner with its newline. *)
Definition scanned_line (l : gostring) : Prop :=
  (NL ∉ l) /\ last l <> Some CR /\
  (Z.of_nat (length l) < GoBufio.MaxScanTokenSize)%Z.

(** ** Notions used to state the further properties *)

(** A host token whose part after the first space is empty: the one on
    which line 71 indexes an empty string. *)
Definition empty_key_token (text : gostring) : Prop :=
  host_token text = true /\
  GoStrings.Split (GoStrings.TrimSpace text) " " !! 1 = Some [].

#[global] Instance empty_key_token_dec text : Decision (empty_key_token text).
Proof. unfold empty_key_token. apply _. Defined.

(** A text whose lines end in a carriage return and a newline. *)
Definition crlf_lines (ls : list gostring) : gostring :=
  concat (map (fun l => l ++ [CR; NL]) ls).

(** The lines with two spaces before each and a newline after each. *)
Definition indented (ls : list gostring) : gostring :=
  concat (map (fun l => "  " ++ l ++ [NL]) ls).

(** A message that the loop can take: on [out], it holds a newline. *)
Definition message_ok (m : message) : Prop :=
  match m with
  | OnErrs _ => True
  | OnOut p => NL ∈ p
  end.

Definition is_errs (m : message) : bool :=
  match m with
  | OnErrs _ => true
  | OnOut _ => false
  end.

(** Some goroutine still has an error to send. *)
Definition has_errs (qs : list (list message)) : bool :=
  existsb (existsb is_errs) qs.

(** The signal that the handler holds is one that was asked for. *)
Definition signal_ok (l : loop) : Prop :=
  match signals l with
  | Cancelled sig => notified sig = true
  | _ => True
  end.

Definition receives_error (a : label) : bool :=
  match a with
  | SelectErrs _ => true
  | _ => false
  end.

(** The exit codes that tell of a failure or a signal. *)
Definition failure_code (z : Z) : Prop :=
  z = 1%Z \/ z = 130%Z \/ z = 137%Z.

(** The first key is refused and the second one works. *)
Definition loop_second_key : loop :=
  enter_loop
    (system_of web_text (Ok [("k1" : gostring, false); ("k2" : gostring, false)])
       (remote_accepting ["certs/k2" : gostring] ("hi" ++ [NL]) CmdDone))
    "cl" [web_host] "echo hi" ["k1" : gostring; "k2" : gostring]
    (mkState web_text world0).

(** The last line of the output has no newline. *)
Definition loop_two_lines_system : system :=
  system_of web_text (Ok [("k1" : gostring, false)])
    (remote_accepting ["certs/k1" : gostring]
       (unlines ["one" : gostring; "two" : gostring] ++ "three") CmdDone).

Definition loop_two_lines : loop :=
  enter_loop loop_two_lines_system "cl" [web_host] "cat f" ["k1" : gostring]
    (mkState web_text world0).

(** A file hosts whose lines are written the way the hosts are stored. *)
Definition stored_inventory : list gostring :=
  ["web:" : gostring; "alice@10.0.0.1:22 /home/alice/.ssh/k1" : gostring;
   "bob@10.0.0.2:22 /home/alice/.ssh/k1" : gostring].

(** The file hosts is missing. *)
Definition system_without_hosts : system :=
  {| env := mkEnviron "alice" "/home/alice";
     hosts_in := Err "open hosts: no such file or directory";
     hosts_opens := false;
     certs_in := Err "open certs: no such file or directory";
     create_hosts := None;
     append_succ := None;
     write_succ := None;
     close_succ := None;
     net := remote_accepting [] [] CmdDone |}.

(** The file hosts is a directory: it can be opened, and not read. *)
Definition system_hosts_is_directory : system :=
  {| env := mkEnviron "alice" "/home/alice";
     hosts_in := Err "read hosts: is a directory";
     hosts_opens := true;
     certs_in := Ok [("k1" : gostring, false)];
     create_hosts := None;
     append_succ := None;
     write_succ := None;
     close_succ := None;
     net := remote_accepting [] [] CmdDone |}.

(** The key k1 works, and the write to succ.txt fails after 9 bytes. *)
Definition system_disk_full : system :=
  {| env := mkEnviron "alice" "/home/alice";
     hosts_in := Ok web_text;
     hosts_opens := true;
     certs_in := Ok [("k1" : gostring, false)];
     create_hosts := None;
     append_succ := None;
     write_succ := Some (9, "write succ.txt: no space left on device" : gostring);
     close_succ := None;
     net := remote_accepting ["certs/k1" : gostring] ("hi" ++ [NL]) CmdDone |}.

(** The line with two spaces is in the cluster db, the one asked for is
    web. *)
Definition two_spaces_text : gostring :=
  unlines ["web:" : gostring; "alice@10.0.0.1" : gostring; "db:" : gostring;
           "bob@10.0.0.2  ~/.ssh/k2" : gostring].

(** The cases of the [select] that take a message from a goroutine. *)
Definition receives (a : label) : bool :=
  match a with
  | SelectErrs _ | SelectOut _ => true
  | _ => false
  end.

(** The number of messages that the goroutines still have to send. *)
Definition pending (l : loop) : nat := length (concat (sending l)).

(** A directory certs with a subdirectory between two key files. *)
Definition system_with_subdir : system :=
  system_of web_text
    (Ok [("a.pem" : gostring, false); ("old" : gostring, true);
         ("b.pem" : gostring, false)])
    (remote_accepting ["certs/b.pem" : gostring] ("hi" ++ [NL]) CmdDone).

(** * Properties *)

(** ** The goroutine of one host *)

Lemma task_nil sys h cmd st : task sys h cmd [] st = (st, []).
Proof. reflexivity. Qed.

Lemma task_failed sys h cmd cert rest st e :
  run_error sys h cmd cert = Some e ->
  task sys h cmd (cert :: rest) st =
    (fst (task sys h cmd rest st),
     Attempt cert :: ErrsSend e :: snd (task sys h cmd rest st)).
Proof.
  unfold run_error. intros He. cbn [task].
  destruct (run (net sys) h cmd ("certs/" ++ cert)) as [b err].
  cbn in He. subst err.
  by destruct (task sys h cmd rest st).
Qed.

Lemma task_worked_events sys h cmd cert rest st :
  run_error sys h cmd cert = None ->
  snd (task sys h cmd (cert :: rest) st) =
    Attempt cert ::
    match create_hosts sys with
    | Some _ => []
    | None => [OutSend ("Host: " ++ addr h ++ [NL] ++ run_output sys h cmd cert)]
    end.
Proof.
  unfold run_error, run_output. intros He. cbn [task].
  destruct (run (net sys) h cmd ("certs/" ++ cert)) as [b err].
  cbn in He. subst err. by destruct (create_hosts sys).
Qed.

(** X27: what a goroutine does that others can see (its calls of [run]
    and its sends) does not depend on the shared state: not on
    [saveHosts], not on the files, so not on what other goroutines have
    done to them. *)
Lemma task_events_any_state sys h cmd certs st st' :
  snd (task sys h cmd certs st) = snd (task sys h cmd certs st').
Proof.
  induction certs as [|cert rest IH]; [done|].
  destruct (run_error sys h cmd cert) as [e|] eqn:He.
  - rewrite !(task_failed _ _ _ _ _ _ e) by done. cbn. by rewrite IH.
  - by rewrite !task_worked_events.
Qed.

Lemma attempts_cons c evs : attempts (Attempt c :: evs) = c :: attempts evs.
Proof. reflexivity. Qed.

Lemma attempts_errs e evs : attempts (ErrsSend e :: evs) = attempts evs.
Proof. reflexivity. Qed.

Lemma failures_cons e evs : failures (ErrsSend e :: evs) = e :: failures evs.
Proof. reflexivity. Qed.

Lemma failures_attempt c evs : failures (Attempt c :: evs) = failures evs.
Proof. reflexivity. Qed.

Lemma successes_errs e evs : successes (ErrsSend e :: evs) = successes evs.
Proof. reflexivity. Qed.

Lemma successes_attempt c evs : successes (Attempt c :: evs) = successes evs.
Proof. reflexivity. Qed.

Lemma task_worked_state sys h cmd cert rest st :
  run_error sys h cmd cert = None ->
  fst (task sys h cmd (cert :: rest) st) =
    match create_hosts sys with
    | Some e =>
        mkState (retire h (saveHosts st)) (to_stdout (e ++ [NL]) (outside st))
    | None =>
        mkState (retire h (saveHosts st))
          (log sys (audit_line sys h cmd cert)
             (rewrite_hosts (retire h (saveHosts st)) (outside st)))
    end.
Proof.
  unfold run_error, audit_line, run_output, retire. intros He. cbn [task].
  destruct (run (net sys) h cmd ("certs/" ++ cert)) as [b err].
  cbn in He. subst err. by destruct (create_hosts sys).
Qed.

(** The goroutine stops at the first key that works. *)
Lemma task_stops_at_first_working_key sys h cmd certs st i cert :
  certs !! i = Some cert ->
  run_error sys h cmd cert = None ->
  (forall j c, j < i -> certs !! j = Some c -> run_error sys h cmd c <> None) ->
  let evs := snd (task sys h cmd certs st) in
  let st' := fst (task sys h cmd certs st) in
  attempts evs = take (S i) certs /\
  length (attempts evs) = S i /\
  last (attempts evs) = Some cert /\
  failures evs = omap (run_error sys h cmd) (take i certs) /\
  match create_hosts sys with
  | None =>
      successes evs = ["Host: " ++ addr h ++ [NL] ++ run_output sys h cmd cert] /\
      st' = mkState (retire h (saveHosts st))
              (log sys (audit_line sys h cmd cert)
                 (rewrite_hosts (retire h (saveHosts st)) (outside st)))
  | Some e =>
      successes evs = [] /\
      st' = mkState (retire h (saveHosts st)) (to_stdout (e ++ [NL]) (outside st))
  end.
Proof.
  revert i. induction certs as [|c rest IH]; intros i Hi Hok Hlow; [done|].
  destruct i as [|i]; cbn in Hi.
  - injection Hi as ->. cbn zeta.
    rewrite task_worked_events, task_worked_state by done.
    by destruct (create_hosts sys) eqn:Hc.
  - destruct (run_error sys h cmd c) as [e|] eqn:He.
    2:{ exfalso. apply (Hlow 0 c); [lia|done|done]. }
    cbn zeta. rewrite (task_failed _ _ _ _ _ _ e) by done.
    destruct (IH i Hi Hok) as (Ha & Hl & Hlast & Hf & Hs).
    { intros j c' Hj Hc'. apply (Hlow (S j) c'); [lia|done]. }
    cbn zeta in Ha, Hl, Hlast, Hf, Hs. cbn [fst snd].
    rewrite attempts_cons, attempts_errs, successes_attempt, successes_errs.
    rewrite failures_attempt, failures_cons.
    split; [by rewrite Ha|]. split; [cbn [length]; by rewrite Hl|].
    split.
    { destruct (attempts (snd (task sys h cmd rest st))) eqn:Hatt; [done|].
      by rewrite last_cons, Hlast. }
    split; [|exact Hs].
    rewrite Hf. cbn [take omap list_omap]. by rewrite He.
Qed.

(** Among the keys there is a first one that works, when one works. *)
Lemma first_working_key_exists sys h cmd (certs : list gostring) :
  (exists c, c ∈ certs /\ run_error sys h cmd c = None) ->
  exists i cert,
    certs !! i = Some cert /\
    run_error sys h cmd cert = None /\
    (forall j c, j < i -> certs !! j = Some c -> run_error sys h cmd c <> None).
Proof.
  induction certs as [|c rest IH]; intros (c0 & Hin & Hok).
  { by apply elem_of_nil in Hin. }
  destruct (run_error sys h cmd c) as [e|] eqn:He.
  - apply elem_of_cons in Hin as [->|Hin]; [congruence|].
    destruct IH as (i & cert & Hi & Hcert & Hlow); [by eauto|].
    exists (S i), cert. split; [done|]. split; [done|].
    intros j c' Hj Hc'. destruct j as [|j]; cbn in Hc'.
    + injection Hc' as <-. congruence.
    + apply (Hlow j c'); [lia|done].
  - exists 0, c. split; [done|]. split; [done|]. intros j c' Hj. lia.
Qed.

(** C1, as the code has it: when one of the keys works, there is a first
    place [i] in the catalog whose key works, and the goroutine calls
    [run] with the keys at the places 0 to [i], in the order of the
    catalog, and with no other: the last call is the one with key [i],
    and nothing is tried after it.  What it reports then depends on the
    file hosts (lines 215-219).  When hosts can be opened for writing,
    the output of that call is sent on [out], once, and the line for
    succ.txt names that key (it is appended when succ.txt can be opened
    and written).  When hosts cannot be opened, the goroutine prints
    the error and returns: nothing is sent on [out], and nothing is
    appended to succ.txt. *)
Theorem first_working_key_wins sys h cmd certs st :
  (exists c, c ∈ certs /\ run_error sys h cmd c = None) ->
  exists i cert,
    certs !! i = Some cert /\
    run_error sys h cmd cert = None /\
    (forall j c, j < i -> certs !! j = Some c -> run_error sys h cmd c <> None) /\
    let evs := snd (task sys h cmd certs st) in
    let st' := fst (task sys h cmd certs st) in
    attempts evs = take (S i) certs /\
    length (attempts evs) = S i /\
    last (attempts evs) = Some cert /\
    match create_hosts sys with
    | None =>
        successes evs = ["Host: " ++ addr h ++ [NL] ++ run_output sys h cmd cert] /\
        (append_succ sys = None -> write_succ sys = None ->
         succ_appended (outside st') =
           succ_appended (outside st) ++ audit_line sys h cmd cert ++ [NL])
    | Some e =>
        successes evs = [] /\
        succ_appended (outside st') = succ_appended (outside st) /\
        stdout (outside st') = stdout (outside st) ++ e ++ [NL]
    end.
Proof.
  intros Hsome.
  destruct (first_working_key_exists _ _ _ _ Hsome) as (i & cert & Hi & Hok & Hlow).
  exists i, cert. split; [done|]. split; [done|]. split; [done|].
  destruct (task_stops_at_first_working_key sys h cmd certs st i cert Hi Hok Hlow)
    as (Ha & Hl & Hlast & _ & Hs).
  cbn zeta in *. split; [done|]. split; [done|]. split; [done|].
  destruct (create_hosts sys) as [e|]; destruct Hs as [Hs ->]; (split; [done|]).
  - done.
  - intros Happ Hwr. unfold log. rewrite Happ, Hwr.
    by destruct (close_succ sys).
Qed.

(** The scenario of two keys, the first refused and the second accepted:
    two calls of [run], and the output of the second is sent. *)
Lemma first_working_key_wins_witness :
  let sys := system_of web_text (Ok [("k1" : gostring, false); ("k2" : gostring, false)])
               (remote_accepting ["certs/k2" : gostring] ("hi" ++ [NL]) CmdDone) in
  let evs := snd (task sys web_host "echo hi" ["k1" : gostring; "k2" : gostring]
                    (mkState web_text world0)) in
  attempts evs = ["k1" : gostring; "k2" : gostring] /\
  successes evs = [("Host: 10.0.0.1:22" ++ [NL] ++ "hi" ++ [NL]) : gostring].
Proof.
  intros sys evs.
  destruct (first_working_key_wins sys web_host "echo hi"
              ["k1" : gostring; "k2" : gostring] (mkState web_text world0))
    as (i & cert & Hi & Hok & _ & Ha & _ & _ & Hs).
  - exists ("k2" : gostring). split; [|vm_compute; reflexivity].
    apply list_elem_of_In. right. left. reflexivity.
  - destruct i as [|[|i]]; cbn in Hi.
    + injection Hi as <-. vm_compute in Hok. discriminate Hok.
    + injection Hi as <-. split; [exact Ha|]. exact (proj1 Hs).
    + discriminate Hi.
Defined.

(** C1 as it is written fails: the key works, and the file hosts cannot
    be opened for writing; the goroutine has called [run] once and ends
    without a success: nothing is sent, neither on [out] nor on [errs],
    and nothing is appended to succ.txt; the error of the open is on
    the standard output. *)
Lemma working_key_without_success_counterexample :
  let r := task system_hosts_read_only web_host "echo hi" ["k1" : gostring]
             (mkState web_text world0) in
  run_error system_hosts_read_only web_host "echo hi" "k1" = None /\
  attempts (snd r) = ["k1" : gostring] /\
  successes (snd r) = [] /\ failures (snd r) = [] /\
  succ_appended (outside (fst r)) = [] /\
  hosts_rewrites (outside (fst r)) = [] /\
  stdout (outside (fst r)) = "open hosts: permission denied" ++ [NL].
Proof. vm_compute. by repeat split. Qed.

Lemma task_failing_prefix sys h cmd certs rest st :
  (forall c, c ∈ certs -> run_error sys h cmd c <> None) ->
  task sys h cmd (certs ++ rest) st =
    (fst (task sys h cmd rest st),
     (certs ≫= failed_attempt sys h cmd) ++ snd (task sys h cmd rest st)).
Proof.
  induction certs as [|c certs IH]; intros Hall.
  - cbn. by destruct (task sys h cmd rest st).
  - destruct (run_error sys h cmd c) as [e|] eqn:He.
    2:{ exfalso. by apply (Hall c); [left|]. }
    cbn [app]. rewrite (task_failed _ _ _ _ _ _ e) by done.
    rewrite IH by (intros c' Hc'; apply Hall; by right).
    cbn [fst snd]. f_equal. cbn. unfold failed_attempt at 2. by rewrite He.
Qed.

Lemma failures_failed_attempts sys h cmd certs :
  failures (certs ≫= failed_attempt sys h cmd) =
    omap (run_error sys h cmd) certs.
Proof.
  induction certs as [|c certs IH]; [done|].
  rewrite bind_cons. unfold failed_attempt at 1. cbn [omap list_omap].
  destruct (run_error sys h cmd c) as [e|] eqn:He; cbn [app]; [|done].
  rewrite failures_attempt, failures_cons. by rewrite IH.
Qed.

Lemma successes_failed_attempts sys h cmd certs :
  successes (certs ≫= failed_attempt sys h cmd) = [].
Proof.
  induction certs as [|c certs IH]; [done|].
  rewrite bind_cons. unfold failed_attempt at 1.
  destruct (run_error sys h cmd c) as [e|] eqn:He; cbn [app]; [|done].
  by rewrite successes_attempt, successes_errs.
Qed.

Lemma omap_all_some {A B} (f : A -> option B) (l : list A) :
  (forall a, a ∈ l -> f a <> None) ->
  length (omap f l) = length l /\ last (omap f l) = last l ≫= f.
Proof.
  induction l as [|a l IH]; intros Hall; [done|].
  destruct (f a) as [b|] eqn:Hb.
  2:{ exfalso. by apply (Hall a); [left|]. }
  destruct IH as [IHlen IHlast]; [intros a' Ha'; apply Hall; by right|].
  cbn. rewrite Hb. cbn. split; [by rewrite IHlen|].
  destruct l as [|a' l]; [cbn; by rewrite Hb|].
  destruct (omap f (a' :: l)) as [|b' bs] eqn:Hom; [cbn in IHlen; lia|].
  by rewrite !last_cons_cons.
Qed.

(** C2, as the code has it: when no key works, the goroutine sends on
    [errs] one error for every key, in the order of the catalog, each one
    right after its call of [run]; the last one sent is the error of the
    last key, and nothing is sent on [out].  An error is sent when its
    attempt fails, whatever the keys after it do. *)
Theorem every_failed_key_sends_its_error sys h cmd certs rest st :
  (forall c, c ∈ certs -> run_error sys h cmd c <> None) ->
  let evs := snd (task sys h cmd certs st) in
  evs = certs ≫= failed_attempt sys h cmd /\
  failures evs = omap (run_error sys h cmd) certs /\
  length (failures evs) = length certs /\
  last (failures evs) = last certs ≫= run_error sys h cmd /\
  successes evs = [] /\
  snd (task sys h cmd (certs ++ rest) st) = evs ++ snd (task sys h cmd rest st).
Proof.
  intros Hall evs.
  assert (Hevs : evs = certs ≫= failed_attempt sys h cmd).
  { unfold evs. rewrite <- (app_nil_r certs) at 1.
    rewrite task_failing_prefix by done. cbn. by rewrite app_nil_r. }
  split; [done|]. rewrite Hevs, failures_failed_attempts.
  destruct (omap_all_some (run_error sys h cmd) certs Hall) as [Hlen Hlast].
  split; [done|]. split; [done|]. split; [done|].
  split; [apply successes_failed_attempts|].
  by rewrite task_failing_prefix.
Qed.

(** Two keys that the host refuses: two errors go to [errs]. *)
Lemma every_failed_key_sends_its_error_witness :
  let sys := system_of web_text (Ok [("k1" : gostring, false); ("k2" : gostring, false)])
               (remote_accepting [] ("hi" ++ [NL]) CmdDone) in
  let evs := snd (task sys web_host "echo hi" ["k1" : gostring; "k2" : gostring]
                    (mkState web_text world0)) in
  failures evs = ["ssh: handshake failed" : gostring; "ssh: handshake failed" : gostring]
  /\ successes evs = [].
Proof.
  intros sys evs.
  destruct (every_failed_key_sends_its_error sys web_host "echo hi"
              ["k1" : gostring; "k2" : gostring] [] (mkState web_text world0))
    as (_ & Hf & _ & _ & Hs & _).
  - intros c Hc. vm_compute. discriminate.
  - split; [exact Hf | exact Hs].
Defined.

(** C2 as it is written fails: with two keys that are both refused the
    goroutine sends two errors, not one; and with a first key refused
    and a second one accepted, the error of the first has been sent
    although the keys were not exhausted. *)
Lemma one_failure_when_exhausted_counterexample :
  let keys := ["k1" : gostring; "k2" : gostring] in
  let none := system_of web_text (Ok [("k1" : gostring, false); ("k2" : gostring, false)])
                (remote_accepting [] ("hi" ++ [NL]) CmdDone) in
  let second := system_of web_text (Ok [("k1" : gostring, false); ("k2" : gostring, false)])
                  (remote_accepting ["certs/k2" : gostring] ("hi" ++ [NL]) CmdDone) in
  let st := mkState web_text world0 in
  (forall c, c ∈ keys -> run_error none web_host "echo hi" c <> None) /\
  length (failures (snd (task none web_host "echo hi" keys st))) = 2 /\
  failures (snd (task second web_host "echo hi" keys st))
    = ["ssh: handshake failed" : gostring] /\
  successes (snd (task second web_host "echo hi" keys st))
    = [("Host: 10.0.0.1:22" ++ [NL] ++ "hi" ++ [NL]) : gostring].
Proof.
  cbn zeta. split; [|by vm_compute].
  intros c Hc. vm_compute. discriminate.
Qed.

Lemma run_without_exit_status r h cmd cert :
  run (without_exit_status r) h cmd cert = run r h cmd cert.
Proof.
  unfold run, without_exit_status. cbn.
  destruct (ReadFile r cert) as [key|]; [|done].
  destruct (ParsePrivateKey r key) as [sgn|]; [|done].
  destruct (Dial r (addr h) (user h) sgn) as [conn|]; [|done].
  destruct (NewSession r conn) as [sess|]; [|done].
  by destruct (CombinedOutput r sess cmd) as [b [| |]].
Qed.

Lemma task_without_exit_status sys h cmd certs st :
  task (with_net sys (without_exit_status (net sys))) h cmd certs st
  = task sys h cmd certs st.
Proof.
  induction certs as [|cert rest IH]; [done|].
  cbn [task with_net net create_hosts]. rewrite run_without_exit_status, IH.
  destruct (run (net sys) h cmd ("certs/" ++ cert)) as [b [err|]]; [done|].
  by destruct (create_hosts sys).
Qed.

(** C6, as the code has it: a session whose command leaves with a status
    that is not zero makes [run] return the output and no error; the
    goroutine then treats the key as the one that worked: it sends no
    error for it, tries no further key, and sends the output on [out]
    when the file hosts can be opened for writing (and nothing when it
    cannot).  The status itself is dropped (line 146 looks at the type
    of the error only): the goroutine does what it does when the
    command leaves with zero after the same output, so the status shows
    nowhere but in what the command itself has printed. *)
Theorem nonzero_exit_counts_as_success sys h cmd cert rest st
    key sgn conn sess b e :
  ReadFile (net sys) ("certs/" ++ cert) = Ok key ->
  ParsePrivateKey (net sys) key = Ok sgn ->
  Dial (net sys) (addr h) (user h) sgn = Ok conn ->
  NewSession (net sys) conn = Ok sess ->
  CombinedOutput (net sys) sess cmd = (b, ExitError e) ->
  run (net sys) h cmd ("certs/" ++ cert) = (b, None) /\
  let evs := snd (task sys h cmd (cert :: rest) st) in
  attempts evs = [cert] /\
  failures evs = [] /\
  successes evs = match create_hosts sys with
                  | None => ["Host: " ++ addr h ++ [NL] ++ b]
                  | Some _ => []
                  end /\
  CombinedOutput (without_exit_status (net sys)) sess cmd = (b, CmdDone) /\
  task (with_net sys (without_exit_status (net sys))) h cmd (cert :: rest) st
  = task sys h cmd (cert :: rest) st.
Proof.
  intros Hread Hparse Hdial Hsess Hout.
  assert (Hrun : run (net sys) h cmd ("certs/" ++ cert) = (b, None)).
  { unfold run. by rewrite Hread, Hparse, Hdial, Hsess, Hout. }
  split; [done|]. cbn zeta.
  rewrite task_worked_events by (unfold run_error; by rewrite Hrun).
  unfold run_output. rewrite Hrun.
  split; [by destruct (create_hosts sys)|].
  split; [by destruct (create_hosts sys)|].
  split; [by destruct (create_hosts sys)|].
  split; [cbn; by rewrite Hout|].
  apply task_without_exit_status.
Qed.

(** The command of the host prints a line and leaves with status 1. *)
Lemma nonzero_exit_counts_as_success_witness :
  let sys := system_of web_text (Ok [("k1" : gostring, false); ("k2" : gostring, false)])
               (remote_accepting ["certs/k1" : gostring] ("boom" ++ [NL])
                  (ExitError "Process exited with status 1")) in
  let evs := snd (task sys web_host "false" ["k1" : gostring; "k2" : gostring]
                    (mkState web_text world0)) in
  attempts evs = ["k1" : gostring] /\ failures evs = [] /\
  successes evs = [("Host: 10.0.0.1:22" ++ [NL] ++ "boom" ++ [NL]) : gostring].
Proof.
  intros sys evs.
  destruct (nonzero_exit_counts_as_success sys web_host "false" "k1"
              ["k2" : gostring] (mkState web_text world0)
              ("certs/k1" : gostring) ("certs/k1" : gostring) tt tt
              ("boom" ++ [NL]) ("Process exited with status 1" : gostring))
    as (_ & Ha & Hf & Hs & _); try reflexivity.
  split; [exact Ha|]. split; [exact Hf|]. exact Hs.
Defined.

(** C6 as it is written fails: the command prints nothing and leaves with
    status 1; the goroutine does what it does for a command that prints
    nothing and leaves with 0: the message on [out] is the label of the
    host alone, the loop prints the label and an empty line, and the
    process leaves with 0.  The status is surfaced nowhere. *)
Lemma nonzero_exit_is_not_surfaced_counterexample :
  let keys := Ok [("k1" : gostring, false)] in
  let failing := system_of web_text keys
                   (remote_accepting ["certs/k1" : gostring] []
                      (ExitError "Process exited with status 1")) in
  let passing := system_of web_text keys
                   (remote_accepting ["certs/k1" : gostring] [] CmdDone) in
  let st := mkState web_text world0 in
  task failing web_host "false" ["k1" : gostring] st
  = task passing web_host "false" ["k1" : gostring] st /\
  successes (snd (task failing web_host "false" ["k1" : gostring] st))
  = [("Host: 10.0.0.1:22" ++ [NL]) : gostring] /\
  (fun l' => (stderr (term l'), stdout (term l'), exit_status l'))
    <$> steps (enter_loop failing "cl" [web_host] "false" ["k1" : gostring] st)
          [SelectOut 0; SelectOutClosed]
  = Some ("Host: 10.0.0.1:22" : gostring, "  " ++ [NL], Some 0%Z).
Proof. vm_compute. by repeat split. Qed.

(** ** The loop and the exit code *)

Lemma codes_lookup sig : exit_code_ok (default 0%Z (codes !! sig)).
Proof.
  unfold codes, exit_code_ok.
  destruct (decide (sig = SIGINT)) as [->|Hint].
  { rewrite lookup_insert_eq. cbn. auto. }
  rewrite lookup_insert_ne by done.
  destruct (decide (sig = SIGKILL)) as [->|Hkill].
  { rewrite lookup_insert_eq. cbn. auto. }
  rewrite lookup_insert_ne by done. rewrite lookup_empty. cbn. auto.
Qed.

Lemma step_code l a l' :
  step l a = Some l' -> code l' = default (code l) (assigns l a).
Proof.
  intros H. unfold assigns.
  destruct a; step_cases H; cbn; try reflexivity.
Qed.

Lemma step_code_ok l a l' :
  step l a = Some l' -> exit_code_ok (code l) -> exit_code_ok (code l').
Proof.
  intros H Hok. rewrite (step_code _ _ _ H). unfold assigns.
  destruct a; try done.
  - destruct (signals l); try done. apply codes_lookup.
  - cbn. unfold exit_code_ok. auto.
Qed.

Lemma steps_code_ok l sched l' :
  steps l sched = Some l' -> exit_code_ok (code l) -> exit_code_ok (code l').
Proof.
  revert l. induction sched as [|a sched IH]; intros l H Hok; cbn in H.
  - by injection H as <-.
  - destruct (step l a) as [l1|] eqn:Hstep; [|done].
    eauto using step_code_ok.
Qed.

Lemma step_needs_loop l a l' :
  step l a = Some l' -> looping l = false ->
  (exists sig, a = Signal sig) \/ a = StoreCode.
Proof.
  intros H Hl. destruct a; eauto; exfalso; unfold step in H;
    rewrite Hl in H; cbn in H; discriminate.
Qed.

Lemma step_ends_loop l a l' :
  step l a = Some l' -> looping l = true -> crashed l' = None ->
  (looping l' = false <->
   (a = SelectDone /\ cancelled l = true) \/
   ((a = SelectErrsClosed \/ a = SelectOutClosed) /\ all_sent l = true)).
Proof.
  intros H Hl Hc.
  assert (Hparts : errs_open l = true /\ out_open l = true
                   /\ bool_decide (crashed l = None) = true).
  { unfold looping in Hl. by repeat (apply andb_prop in Hl as [Hl ?]). }
  destruct Hparts as (He & Ho & Hcr).
  destruct a; step_cases H; unfold looping in *; cbn in *;
    rewrite ?He, ?Ho, ?Hcr in *; cbn in *;
    repeat match goal with
           | Hx : _ && _ = true |- _ => apply andb_prop in Hx as [? ?]
           end;
    try (rewrite Hc; cbn);
    split; intros Hx; try done;
    try (destruct Hx as [[? ?]|[[?|?] ?]]; discriminate);
    auto.
Qed.

(** C4, as the code has it: the loop goes on until the [select] takes
    the case of the cancellation (which needs [cancel] to have been
    called) or finds one of the two channels closed (which needs every
    goroutine to be done); after that only the signal handler moves.
    [code] is 0, 1, 130 or 137 at every moment, and it holds the value
    stored last: every error received from [errs] stores 1, also when
    the handler had stored the code of the signal before. *)
Theorem exit_code_is_the_last_one_stored l sched l1 a l2 :
  exit_code_ok (code l) ->
  steps l sched = Some l1 ->
  step l1 a = Some l2 ->
  exit_code_ok (code l2) /\
  code l2 = default (code l1) (assigns l1 a) /\
  (forall i, a = SelectErrs i -> code l2 = 1%Z) /\
  (looping l1 = false -> (exists sig, a = Signal sig) \/ a = StoreCode) /\
  (looping l1 = true -> crashed l2 = None ->
   (looping l2 = false <->
    (a = SelectDone /\ cancelled l1 = true) \/
    ((a = SelectErrsClosed \/ a = SelectOutClosed) /\ all_sent l1 = true))).
Proof.
  intros Hok Hsteps Hstep.
  split; [eauto using steps_code_ok, step_code_ok|].
  split; [by apply step_code|].
  split; [intros i ->; by rewrite (step_code _ _ _ Hstep)|].
  split; [intros Hl; exact (step_needs_loop _ _ _ Hstep Hl)|].
  intros Hl Hc. exact (step_ends_loop _ _ _ Hstep Hl Hc).
Qed.

(** The error of the host is received after the interrupt: 130, then 1. *)
Lemma exit_code_is_the_last_one_stored_witness :
  exists l2,
    steps loop_one_refused [Signal SIGINT; StoreCode] = Some loop_interrupted /\
    step loop_interrupted (SelectErrs 0) = Some l2 /\
    code loop_interrupted = 130%Z /\ code l2 = 1%Z /\ exit_code_ok (code l2).
Proof.
  destruct (step loop_interrupted (SelectErrs 0)) as [l2|] eqn:Hstep;
    [|vm_compute in Hstep; discriminate].
  exists l2.
  assert (Hsteps : steps loop_one_refused [Signal SIGINT; StoreCode]
                   = Some loop_interrupted) by (vm_compute; reflexivity).
  destruct (exit_code_is_the_last_one_stored loop_one_refused
              [Signal SIGINT; StoreCode] loop_interrupted (SelectErrs 0) l2)
    as (Hok & _ & Hone & _).
  - left. reflexivity.
  - exact Hsteps.
  - exact Hstep.
  - split; [exact Hsteps|]. split; [reflexivity|]. split; [reflexivity|].
    split; [exact (Hone 0 eq_refl) | exact Hok].
Defined.

(** C4 as it is written fails: the interrupt arrives and its code 130 is
    stored; the [select] then takes the error that the goroutine of the
    host is sending, and after it the cancellation; the process leaves
    with 1. *)
Lemma signal_code_precedence_counterexample :
  code <$> steps loop_one_refused [Signal SIGINT; StoreCode] = Some 130%Z /\
  steps loop_one_refused [Signal SIGINT; StoreCode; SelectErrs 0; SelectDone]
    ≫= exit_status = Some 1%Z.
Proof. split; vm_compute; reflexivity. Qed.

(** ** The start of [main] *)

(** C8: when the map that [unmarshal] returns has no entry for the
    first argument, [main] prints the message to the standard error and
    leaves with status 1 before any goroutine is started; the file hosts
    has not been rewritten and nothing has been appended to succ.txt. *)
Theorem unknown_cluster_exits_with_1 sys prog name arg more w data cluster :
  hosts_in sys = Ok data ->
  unmarshal (env sys) data = Returns cluster ->
  cluster !! name = None ->
  let r := startup sys (prog :: name :: arg :: more) w in
  fst r = Exit 1 /\
  hosts_rewrites (snd r) = hosts_rewrites w /\
  succ_appended (snd r) = succ_appended w /\
  hosts_content sys (snd r) = hosts_content sys w /\
  stderr (snd r) = stderr w ++ prog ++ ": unknown cluster" ++ [NL].
Proof.
  intros Hin Hparse Hname r. subst r. unfold startup.
  cbn [index lookup list_lookup].
  rewrite bool_decide_false by (cbn; lia).
  rewrite Hin. unfold readCerts, hosts_content.
  destruct (certs_in sys) as [entries|e]; rewrite Hparse; cbn; rewrite Hname;
    cbn; by rewrite Hin.
Qed.

(** The inventory of the scenarios has the cluster web only. *)
Lemma unknown_cluster_exits_with_1_witness :
  let sys := system_of web_text (Ok [("k1" : gostring, false)])
               (remote_accepting ["certs/k1" : gostring] ("hi" ++ [NL]) CmdDone) in
  let r := startup sys ["cl" : gostring; "db" : gostring; "echo" : gostring;
                        "hi" : gostring] world0 in
  fst r = Exit 1 /\ hosts_rewrites (snd r) = [] /\ succ_appended (snd r) = [].
Proof.
  intros sys r.
  destruct (unknown_cluster_exits_with_1 sys "cl" "db" "echo" ["hi" : gostring]
              world0 web_text {[ ("web" : gostring) := [web_host] ]})
    as (He & Hh & Hs & _).
  - reflexivity.
  - vm_compute. reflexivity.
  - vm_compute. reflexivity.
  - split; [exact He|]. split; [exact Hh | exact Hs].
Defined.

Lemma all_sent_lookup l i q :
  all_sent l = true -> sending l !! i = Some q -> q = [].
Proof.
  unfold all_sent. intros Hall Hq.
  rewrite forallb_forall in Hall.
  apply list_elem_of_lookup_2, list_elem_of_In in Hq.
  specialize (Hall q Hq). by apply bool_decide_eq_true in Hall.
Qed.

Lemma step_quiet l a l' :
  quiet l -> is_signal a = false -> step l a = Some l' -> quiet l'.
Proof.
  intros (Hall & Hsig & Hcode & Hcr) Ha H. unfold quiet.
  destruct a; try discriminate Ha; unfold step in H; rewrite ?Hsig in H;
    try discriminate H.
  - destruct (looping l && cancelled l); [|done]. by injection H as <-.
  - destruct (looping l); [|done].
    destruct (sending l !! i) as [q|] eqn:Hq; [|done].
    by rewrite (all_sent_lookup _ _ _ Hall Hq) in H.
  - destruct (looping l && all_sent l); [|done]. by injection H as <-.
  - destruct (looping l); [|done].
    destruct (sending l !! i) as [q|] eqn:Hq; [|done].
    by rewrite (all_sent_lookup _ _ _ Hall Hq) in H.
  - destruct (looping l && all_sent l); [|done]. by injection H as <-.
Qed.

Lemma steps_quiet l sched l' :
  quiet l ->
  Forall (fun a => is_signal a = false) sched ->
  steps l sched = Some l' -> quiet l'.
Proof.
  intros Hq Hno. revert l Hq.
  induction Hno as [|a sched Ha Hno IH]; intros l Hq H; cbn in H.
  - by injection H as <-.
  - destruct (step l a) as [l1|] eqn:Hstep; [|done].
    eauto using step_quiet.
Qed.

(** C7, as the code has it: when the directory certs cannot be read,
    [readCerts] prints the error and gives no key, and [main] goes on:
    with a file hosts that is read and parsed and that has the cluster
    named on the command line, the start of [main] ends neither the
    process nor in a panic; it starts one goroutine for each host of the
    cluster, with no key.  Every goroutine then ends at once: it calls
    [run] for nothing and sends nothing, neither on [errs] nor on
    [out], and leaves the state as it is.  The channels are closed right
    away, and as long as no signal arrives the exit status is 0. *)
Theorem unreadable_certs_mean_no_attempt sys prog name arg more w e data
    cluster hosts :
  certs_in sys = Err e ->
  hosts_in sys = Ok data ->
  unmarshal (env sys) data = Returns cluster ->
  cluster !! name = Some hosts ->
  let w' := to_stdout (e ++ [NL]) w in
  let st := mkState (unlines (GoBufio.ReadLines data)) w' in
  let cmd := GoStrings.Join (arg :: more) " " in
  startup sys (prog :: name :: arg :: more) w = (Spawned hosts cmd [] st, w') /\
  (forall h st1, task sys h cmd [] st1 = (st1, [])) /\
  (forall sched l',
     Forall (fun a => is_signal a = false) sched ->
     steps (enter_loop sys prog hosts cmd [] st) sched = Some l' ->
     code l' = 0%Z /\ (looping l' = false -> exit_status l' = Some 0%Z)) /\
  (exists l',
     step (enter_loop sys prog hosts cmd [] st) SelectErrsClosed = Some l'
     /\ exit_status l' = Some 0%Z).
Proof.
  intros Hcerts Hin Hparse Hname w' st cmd.
  assert (Hquiet : quiet (enter_loop sys prog hosts cmd [] st)).
  { unfold quiet, enter_loop, all_sent. cbn.
    split; [|done]. apply forallb_forall. intros q Hq.
    apply in_map_iff in Hq as (h & <- & _). done. }
  split.
  { unfold startup, readCerts. cbn [index lookup list_lookup].
    rewrite bool_decide_false by (cbn; lia).
    rewrite Hin, Hcerts, Hparse.
    cbn. by rewrite Hname. }
  split; [done|]. split.
  - intros sched l' Hno Hsteps.
    destruct (steps_quiet _ _ _ Hquiet Hno Hsteps) as (_ & _ & Hcode & Hcr).
    split; [done|]. intros Hl. unfold exit_status. by rewrite Hcr, Hl, Hcode.
  - destruct Hquiet as (Hall & _).
    unfold step. replace (looping _) with true by done. rewrite Hall.
    eexists. split; [reflexivity|]. done.
Qed.

Lemma startup_without_certs :
  startup system_without_certs
    ["cl" : gostring; "web" : gostring; "echo" : gostring; "hi" : gostring] world0
  = (Spawned [web_host] "echo hi" [] state_without_certs,
     outside state_without_certs).
Proof. vm_compute. reflexivity. Qed.

Lemma unreadable_certs_mean_no_attempt_witness :
  startup system_without_certs
    ["cl" : gostring; "web" : gostring; "echo" : gostring; "hi" : gostring] world0
  = (Spawned [web_host] "echo hi" [] state_without_certs,
     outside state_without_certs) /\
  task system_without_certs web_host "echo hi" [] state_without_certs
    = (state_without_certs, []) /\
  exists l',
    step (enter_loop system_without_certs "cl" [web_host] "echo hi" []
            state_without_certs) SelectErrsClosed = Some l'
    /\ exit_status l' = Some 0%Z.
Proof.
  destruct (unreadable_certs_mean_no_attempt system_without_certs
              "cl" "web" "echo" ["hi" : gostring] world0
              "open certs: no such file or directory" web_text
              {[ ("web" : gostring) := [web_host] ]} [web_host])
    as (Hstart & Htask & _ & Hexit).
  - reflexivity.
  - reflexivity.
  - vm_compute. reflexivity.
  - vm_compute. reflexivity.
  - split; [exact Hstart|]. split; [apply Htask | exact Hexit].
Defined.

(** C7 as it is written fails: with a directory certs that cannot be
    read the goroutine of the host of the scenario sends no error at
    all, and the process leaves with status 0. *)
Lemma unreadable_certs_failure_counterexample :
  fst (startup system_without_certs
         ["cl" : gostring; "web" : gostring; "echo" : gostring; "hi" : gostring]
         world0)
    = Spawned [web_host] "echo hi" [] state_without_certs /\
  failures (snd (task system_without_certs web_host "echo hi" []
                   state_without_certs)) = [] /\
  steps (enter_loop system_without_certs "cl" [web_host] "echo hi" []
           state_without_certs) [SelectErrsClosed]
    ≫= exit_status = Some 0%Z.
Proof.
  split; [by rewrite startup_without_certs|].
  split; vm_compute; reflexivity.
Qed.

(** ** Reading a text made of lines *)

Lemma dropCR_rev_plain (l : gostring) :
  last l <> Some CR -> GoBufio.dropCR_rev (rev l) = l.
Proof.
  intros Hlast. unfold GoBufio.dropCR_rev.
  destruct (rev l) as [|c r] eqn:Hrev.
  - apply (f_equal (@rev ascii)) in Hrev. by rewrite rev_involutive in Hrev.
  - assert (Hl : l = rev r ++ [c]).
    { apply (f_equal (@rev ascii)) in Hrev. by rewrite rev_involutive in Hrev. }
    rewrite bool_decide_false.
    + by rewrite <- Hrev, rev_involutive.
    + intros ->. apply Hlast. rewrite Hl. apply last_snoc.
Qed.

Lemma scan_from_line (acc l rest : gostring) (n : Z) :
  NL ∉ l -> (n + Z.of_nat (length l) < GoBufio.MaxScanTokenSize)%Z ->
  GoBufio.scan_from acc n (l ++ NL :: rest)
  = GoBufio.dropCR_rev (rev l ++ acc) :: GoBufio.scan_from [] 0 rest.
Proof.
  revert acc n. induction l as [|c l IH]; intros acc n Hnl Hlen.
  - cbn. by rewrite bool_decide_true.
  - apply not_elem_of_cons in Hnl as [Hc Hl].
    cbn [app GoBufio.scan_from]. rewrite bool_decide_false by done.
    cbn [length] in Hlen.
    replace (n + 1 <? GoBufio.MaxScanTokenSize)%Z with true
      by (symmetry; apply Z.ltb_lt; lia).
    rewrite IH by (done || lia). cbn [rev]. by rewrite <- app_assoc.
Qed.

Lemma scan_from_unlines (ls : list gostring) (rest : gostring) :
  Forall scanned_line ls ->
  GoBufio.scan_from [] 0 (unlines ls ++ rest) = ls ++ GoBufio.scan_from [] 0 rest.
Proof.
  induction 1 as [|l ls (Hnl & Hcr & Hlen) Hall IH]; [done|].
  unfold unlines. cbn [map concat]. fold (unlines ls).
  rewrite <- !app_assoc. cbn [app].
  rewrite scan_from_line by (done || lia).
  rewrite app_nil_r, dropCR_rev_plain by done. by rewrite IH.
Qed.

(** The scanner gives back the lines of a text whose lines have no
    newline inside, no carriage return at the end and fewer than
    [MaxScanTokenSize] bytes. *)
Lemma Scan_unlines (ls : list gostring) :
  Forall scanned_line ls -> GoBufio.Scan (unlines ls) = ls.
Proof.
  intros Hall. unfold GoBufio.Scan.
  rewrite <- (app_nil_r (unlines ls)), scan_from_unlines by done.
  apply app_nil_r.
Qed.

Lemma scan_from_long (acc long rest : gostring) (n : Z) :
  NL ∉ long -> (n < GoBufio.MaxScanTokenSize)%Z ->
  (GoBufio.MaxScanTokenSize <= n + Z.of_nat (length long))%Z ->
  GoBufio.scan_from acc n (long ++ rest) = [].
Proof.
  revert acc n. induction long as [|c long IH]; intros acc n Hnl Hn Hlen.
  - cbn [length] in Hlen. lia.
  - apply not_elem_of_cons in Hnl as [Hc Hl].
    cbn [app GoBufio.scan_from]. rewrite bool_decide_false by done.
    cbn [length] in Hlen.
    destruct (Z.ltb_spec (n + 1) GoBufio.MaxScanTokenSize) as [Hlt|Hge];
      [|done].
    apply IH; [done | done | lia].
Qed.

(** A line of [MaxScanTokenSize] bytes or more ends the scan: neither
    the line nor what follows it is handed out. *)
Lemma Scan_long_line (ls : list gostring) (long rest : gostring) :
  Forall scanned_line ls ->
  NL ∉ long -> (GoBufio.MaxScanTokenSize <= Z.of_nat (length long))%Z ->
  GoBufio.Scan (unlines ls ++ long ++ rest) = ls.
Proof.
  intros Hall Hnl Hlen. unfold GoBufio.Scan.
  rewrite scan_from_unlines by done.
  rewrite scan_from_long by (done || lia).
  apply app_nil_r.
Qed.


(** ** The inventory *)

Lemma index_Some {A} (s : list A) i a : s !! i = Some a -> index s i = Returns a.
Proof. unfold index. by intros ->. Qed.

Lemma HasPrefix_nil (s : gostring) : GoStrings.HasPrefix s [] = true.
Proof. by destruct s. Qed.

Lemma HasPrefix_byte (s : gostring) (c : ascii) :
  GoStrings.HasPrefix s [c] = bool_decide (s !! 0 = Some c).
Proof.
  destruct s as [|x s]; [done|]. cbn.
  rewrite HasPrefix_nil, andb_true_r. apply bool_decide_ext. split; [by intros ->|].
  by intros [= ->].
Qed.

Lemma Contains_byte_false (s : gostring) (c : ascii) :
  c ∉ s -> GoStrings.Contains s [c] = false.
Proof.
  induction s as [|x s IH]; intros Hc; [done|].
  cbn [GoStrings.Contains]. rewrite HasPrefix_byte. cbn.
  rewrite bool_decide_false by (intros [= ->]; apply Hc; by left).
  apply IH. intros Hin. apply Hc. by right.
Qed.

Lemma Contains_byte_true (a rest : gostring) (c : ascii) :
  GoStrings.Contains (a ++ c :: rest) [c] = true.
Proof.
  induction a as [|x a IH].
  - cbn [app GoStrings.Contains]. rewrite HasPrefix_byte. cbn.
    by rewrite bool_decide_true.
  - cbn [app GoStrings.Contains]. rewrite IH. apply orb_true_r.
Qed.

Lemma SplitByte_no_sep (a : gostring) (c : ascii) :
  c ∉ a -> GoStrings.SplitByte a c = [a].
Proof.
  induction a as [|x a IH]; intros Hc; [done|].
  cbn. rewrite bool_decide_false by (intros ->; apply Hc; by left).
  rewrite IH; [done|]. intros Hin. apply Hc. by right.
Qed.

Lemma SplitByte_sep (a rest : gostring) (c : ascii) :
  c ∉ a ->
  GoStrings.SplitByte (a ++ c :: rest) c = a :: GoStrings.SplitByte rest c.
Proof.
  induction a as [|x a IH]; intros Hc.
  - cbn. by rewrite bool_decide_true.
  - cbn. rewrite bool_decide_false by (intros ->; apply Hc; by left).
    rewrite IH; [done|]. intros Hin. apply Hc. by right.
Qed.

Lemma host_entry_panic e line why :
  host_entry e line = Panic why -> why = IndexOutOfRange.
Proof.
  unfold host_entry, index. intros H.
  repeat match type of H with
         | context [match ?x with _ => _ end] =>
             destruct x; cbn in H; try discriminate H
         | context [if ?x then _ else _] =>
             destruct x; cbn in H; try discriminate H
         end;
  congruence.
Qed.

Lemma unmarshal_line_panic e m curr text why :
  unmarshal_line e m curr text = Panic why -> why = IndexOutOfRange.
Proof.
  unfold unmarshal_line. intros H.
  case_bool_decide; [done|]. destruct (is_header _); [done|].
  destruct (host_entry e _) as [h|why'] eqn:Hh; [done|].
  cbn in H. injection H as <-. by eapply host_entry_panic.
Qed.

Lemma unmarshal_loop_panic e m curr tokens why :
  unmarshal_loop e m curr tokens = Panic why -> why = IndexOutOfRange.
Proof.
  revert m curr. induction tokens as [|text rest IH]; intros m curr H; [done|].
  cbn [unmarshal_loop] in H.
  destruct (unmarshal_line e m curr text) as [[m' curr']|why'] eqn:Hl.
  - by eapply IH.
  - cbn in H. injection H as <-. by eapply unmarshal_line_panic.
Qed.

(** A panic on one line is the result of the whole loop. *)
Lemma unmarshal_loop_panics_at e m curr before text after :
  (forall m' curr', unmarshal_line e m' curr' text = Panic IndexOutOfRange) ->
  unmarshal_loop e m curr (before ++ text :: after) = Panic IndexOutOfRange.
Proof.
  intros Htext. revert m curr.
  induction before as [|t before IH]; intros m curr; cbn [app unmarshal_loop].
  - by rewrite Htext.
  - destruct (unmarshal_line e m curr t) as [[m' curr']|why] eqn:Hl.
    + apply IH.
    + cbn. f_equal. by eapply unmarshal_line_panic.
Qed.

(** C10: a host line in which the first space is followed at once by
    another one has an empty second part; [unmarshal] takes the first
    byte of that empty string, which is an index out of range: the parse
    of a text with such a line panics. *)
Theorem empty_key_path_panics e r before text after a b :
  GoBufio.Scan r = before ++ text :: after ->
  GoStrings.TrimSpace text = a ++ " " ++ " " ++ b ->
  " "%char ∉ a ->
  is_header (GoStrings.TrimSpace text) = false ->
  GoStrings.Split (GoStrings.TrimSpace text) " " !! 1 = Some [] /\
  host_entry e (GoStrings.TrimSpace text) = Panic IndexOutOfRange /\
  unmarshal e r = Panic IndexOutOfRange.
Proof.
  intros Hscan Htrim Ha Hhead.
  assert (Hparts : GoStrings.Split (GoStrings.TrimSpace text) " " !! 1
                   = Some []).
  { rewrite Htrim. cbn [GoStrings.Split list_ascii_of_string app].
    rewrite SplitByte_sep by done. cbn. by rewrite bool_decide_true. }
  assert (Hentry : host_entry e (GoStrings.TrimSpace text)
                   = Panic IndexOutOfRange).
  { unfold host_entry.
    replace (GoStrings.Contains (GoStrings.TrimSpace text) " ") with true.
    2:{ rewrite Htrim. symmetry. apply (Contains_byte_true a). }
    rewrite (index_Some _ _ _ Hparts). reflexivity. }
  split; [done|]. split; [done|].
  unfold unmarshal. rewrite Hscan. apply unmarshal_loop_panics_at.
  intros m' curr'. unfold unmarshal_line.
  rewrite bool_decide_false.
  2:{ rewrite Htrim. by destruct a. }
  by rewrite Hhead, Hentry.
Qed.

Lemma empty_key_path_panics_witness :
  unmarshal (mkEnviron "alice" "/home/alice")
    (unlines ["web:" : gostring; "alice@10.0.0.1  ~/.ssh/k1" : gostring])
  = Panic IndexOutOfRange.
Proof.
  refine (proj2 (proj2 (empty_key_path_panics (mkEnviron "alice" "/home/alice")
            (unlines ["web:" : gostring; "alice@10.0.0.1  ~/.ssh/k1" : gostring])
            ["web:" : gostring] "alice@10.0.0.1  ~/.ssh/k1" []
            "alice@10.0.0.1" "~/.ssh/k1" _ _ _ _))).
  - vm_compute. reflexivity.
  - vm_compute. reflexivity.
  - vm_compute. intros H. by apply list_elem_of_In in H; cbn in H; intuition discriminate.
  - vm_compute. reflexivity.
Defined.

(** *** The fields of a host line *)

Lemma IndexByte_None (s : gostring) (c : ascii) :
  c ∉ s -> GoNet.IndexByte s c = None.
Proof.
  induction s as [|x s IH]; intros Hc; [done|].
  cbn. rewrite bool_decide_false by (intros ->; apply Hc; by left).
  rewrite IH; [done|]. intros Hin. apply Hc. by right.
Qed.

Lemma LastIndexByte_None (s : gostring) (c : ascii) :
  c ∉ s -> GoNet.LastIndexByte s c = None.
Proof.
  induction s as [|x s IH]; intros Hc; [done|].
  cbn. rewrite IH by (intros Hin; apply Hc; by right).
  by rewrite bool_decide_false by (intros ->; apply Hc; by left).
Qed.

Lemma stored_addr_no_port (hp : gostring) :
  ":"%char ∉ hp -> stored_addr hp = hp ++ ":22".
Proof.
  intros Hc. unfold stored_addr, GoNet.SplitHostPort.
  rewrite LastIndexByte_None by done. cbn.
  unfold GoNet.JoinHostPort. by rewrite IndexByte_None.
Qed.

Lemma replace_from_none old new s :
  GoStrings.replace_from old new 0 0 s = s.
Proof. induction s as [|c s IH]; [done|]. cbn. by rewrite IH. Qed.

Lemma Replace_tilde home rest :
  GoStrings.Replace ("~"%char :: rest) "~" home 1 = home ++ rest.
Proof.
  cbn. rewrite HasPrefix_nil. cbn. by rewrite replace_from_none.
Qed.

Lemma SplitByte_abs_path (c : gostring) (elems : list gostring) :
  "/"%char ∉ c -> Forall plain_elem elems ->
  GoStrings.SplitByte (c ++ abs_path elems) "/"%char = c :: elems.
Proof.
  intros Hc Hall. revert c Hc.
  induction Hall as [|c' elems Hc' Hall IH]; intros c Hc.
  - unfold abs_path. cbn. rewrite app_nil_r. by apply SplitByte_no_sep.
  - unfold abs_path. rewrite bind_cons. fold (abs_path elems).
    change (("/" : gostring) ++ c') with ("/"%char :: c').
    cbn [app]. rewrite SplitByte_sep by done.
    rewrite IH; [done|]. apply Hc'.
Qed.

Lemma clean_plain_elems rooted (elems stack : list gostring) :
  Forall plain_elem elems ->
  fold_left (GoPath.clean_step rooted) elems stack = rev elems ++ stack.
Proof.
  intros Hall. revert stack.
  induction Hall as [|c elems (Hne & _ & Hdot & Hdots) Hall IH]; intros stack;
    [done|].
  cbn [fold_left rev]. rewrite IH. unfold GoPath.clean_step.
  rewrite !bool_decide_false by done. cbn. by rewrite <- app_assoc.
Qed.

Lemma Join_abs_path (c : gostring) (elems : list gostring) :
  ("/" : gostring) ++ GoStrings.Join (c :: elems) "/" = abs_path (c :: elems).
Proof.
  unfold abs_path. rewrite bind_cons. cbn [GoStrings.Join].
  rewrite <- app_assoc. do 2 f_equal.
  induction elems as [|c' elems IH]; [done|].
  rewrite bind_cons. cbn [map concat]. by rewrite IH.
Qed.

Lemma Clean_abs_path (elems : list gostring) :
  elems <> [] -> Forall plain_elem elems ->
  GoPath.Clean (abs_path elems) = abs_path elems.
Proof.
  intros Hne Hall. destruct elems as [|c elems]; [done|].
  unfold GoPath.Clean.
  assert (Habs : abs_path (c :: elems) = "/"%char :: c ++ abs_path elems).
  { unfold abs_path. by rewrite bind_cons. }
  rewrite Habs at 1. cbv iota beta zeta.
  destruct (bool_decide_reflect ("/"%char = "/"%char)) as [_|Hn]; [|done].
  change (GoStrings.SplitByte (abs_path (c :: elems)) "/"%char)
    with (GoStrings.SplitByte ([] ++ abs_path (c :: elems)) "/"%char).
  rewrite SplitByte_abs_path; [|apply not_elem_of_nil|done].
  change (fold_left (GoPath.clean_step true) ([] :: c :: elems) [])
    with (fold_left (GoPath.clean_step true) (c :: elems) []).
  rewrite clean_plain_elems by done.
  rewrite app_nil_r, rev_involutive. apply Join_abs_path.
Qed.

Lemma abs_path_app (a b : list gostring) :
  abs_path (a ++ b) = abs_path a ++ abs_path b.
Proof. unfold abs_path. apply bind_app. Qed.

Lemma default_key_under_home (elems : list gostring) :
  elems <> [] -> Forall plain_elem elems ->
  GoPath.Join [abs_path elems; ".ssh" : gostring; "id_rsa" : gostring]
  = abs_path elems ++ "/.ssh/id_rsa".
Proof.
  intros Hne Hall.
  assert (Htail : abs_path [".ssh" : gostring; "id_rsa" : gostring]
                  = "/.ssh/id_rsa") by reflexivity.
  assert (Hjoin : GoPath.Join [abs_path elems; ".ssh" : gostring;
                               "id_rsa" : gostring]
                  = GoPath.Clean (abs_path (elems ++ [".ssh" : gostring;
                                                      "id_rsa" : gostring]))).
  { rewrite abs_path_app, Htail. unfold GoPath.Join.
    destruct (abs_path elems) as [|x p] eqn:Hp.
    - destruct elems as [|c elems]; [done|]. unfold abs_path in Hp.
      rewrite bind_cons in Hp. discriminate Hp.
    - reflexivity. }
  rewrite Hjoin, Clean_abs_path.
  - by rewrite abs_path_app, Htail.
  - by destruct elems.
  - apply Forall_app. split; [done|].
    repeat constructor; try done;
      intros Hin; apply list_elem_of_In in Hin; cbn in Hin;
      intuition discriminate.
Qed.

Lemma result_bind_ext {A B} (r : result A) (k1 k2 : A -> result B) :
  (forall a, k1 a = k2 a) -> r ≫= k1 = r ≫= k2.
Proof. intros Hk. destruct r; cbn; [apply Hk|done]. Qed.

Lemma host_entry_with_key e front c :
  " "%char ∉ front -> " "%char ∉ c -> c <> [] ->
  host_entry e (front ++ " " ++ c) =
    '(h_user, line) ←
      (if GoStrings.Contains front "@" then
         let parts := GoStrings.Split front "@" in
         h_user ← index parts 0;
         line ← index parts 1;
         mret (h_user, line)
       else mret (USER e, front));
    mret {| user := h_user; addr := stored_addr line;
            identity := expand_tilde e c |}.
Proof.
  intros Hfront Hc Hne. unfold host_entry.
  replace (GoStrings.Contains (front ++ " " ++ c) " ") with true
    by (symmetry; apply (Contains_byte_true front c " "%char)).
  assert (Hsplit : GoStrings.Split (front ++ " " ++ c) " " = [front; c]).
  { cbn [GoStrings.Split list_ascii_of_string app].
    rewrite SplitByte_sep by done. by rewrite SplitByte_no_sep. }
  rewrite Hsplit. destruct c as [|x rest]; [done|].
  cbn [index lookup list_lookup mbind result_bind mret result_ret].
  assert (Hid : (if bool_decide (x = "~"%char)
                 then GoStrings.Replace (x :: rest) "~" (HOME e) 1
                 else x :: rest) = expand_tilde e (x :: rest)).
  { unfold expand_tilde. case_bool_decide as Hx; [|done].
    subst x. apply Replace_tilde. }
  rewrite Hid. apply result_bind_ext. intros [h_user line].
  unfold stored_addr.
  by destruct (GoNet.SplitHostPort line) as [[hst port] err].
Qed.

Lemma host_entry_without_key e front :
  " "%char ∉ front ->
  host_entry e front =
    '(h_user, line) ←
      (if GoStrings.Contains front "@" then
         let parts := GoStrings.Split front "@" in
         h_user ← index parts 0;
         line ← index parts 1;
         mret (h_user, line)
       else mret (USER e, front));
    mret {| user := h_user; addr := stored_addr line;
            identity := GoPath.Join [HOME e; ".ssh" : gostring;
                                     "id_rsa" : gostring] |}.
Proof.
  intros Hfront. unfold host_entry.
  replace (GoStrings.Contains front " ") with false
    by (symmetry; apply (Contains_byte_false front " "%char Hfront)).
  cbn [mbind result_bind mret result_ret].
  apply result_bind_ext. intros [h_user line]. unfold stored_addr.
  by destruct (GoNet.SplitHostPort line) as [[hst port] err].
Qed.

(** C9: on a host line [[user@]host[:port] [credentialPath]] the user
    is the one before the at sign and otherwise the variable USER; the
    key is the second part, with a leading tilde replaced by the
    variable HOME, and otherwise the file [.ssh/id_rsa] joined to HOME
    (for a HOME that is an absolute path in its shortest form, HOME
    followed by [/.ssh/id_rsa]); and a part without a colon is stored
    as the address with the port 22. *)
Theorem host_line_defaults e u hp cred :
  " "%char ∉ hp -> "@"%char ∉ hp ->
  (forall u', u = Some u' -> (" "%char ∉ u') /\ ("@"%char ∉ u')) ->
  (forall c, cred = Some c -> c <> [] /\ (" "%char ∉ c)) ->
  host_entry e (host_line u hp cred) =
    Returns {| user := default (USER e) u;
               addr := stored_addr hp;
               identity :=
                 match cred with
                 | Some c => expand_tilde e c
                 | None => GoPath.Join [HOME e; ".ssh" : gostring;
                                        "id_rsa" : gostring]
                 end |} /\
  (forall rest, expand_tilde e ("~"%char :: rest) = HOME e ++ rest) /\
  (":"%char ∉ hp -> stored_addr hp = hp ++ ":22") /\
  (forall elems, HOME e = abs_path elems -> elems <> [] ->
     Forall plain_elem elems ->
     GoPath.Join [HOME e; ".ssh" : gostring; "id_rsa" : gostring]
     = HOME e ++ "/.ssh/id_rsa").
Proof.
  intros Hsp Hat Hu Hcred.
  split; [|split; [done|split; [apply stored_addr_no_port|]]].
  2:{ intros elems -> Hne Hall. by apply default_key_under_home. }
  set (front := match u with Some u' => u' ++ "@" | None => [] end ++ hp).
  assert (Hfront : " "%char ∉ front).
  { unfold front. destruct u as [u'|]; [|done].
    destruct (Hu u' eq_refl) as [Hu1 _].
    rewrite !not_elem_of_app. repeat split; try done.
    intros Hin. apply list_elem_of_In in Hin. cbn in Hin.
    intuition discriminate. }
  assert (Huser :
    (if GoStrings.Contains front "@" then
       let parts := GoStrings.Split front "@" in
       h_user ← index parts 0;
       line ← index parts 1;
       mret (h_user, line)
     else mret (USER e, front)) = Returns (default (USER e) u, hp)).
  { unfold front. destruct u as [u'|].
    - destruct (Hu u' eq_refl) as [_ Hu2].
      rewrite <- app_assoc.
      replace (GoStrings.Contains (u' ++ "@" ++ hp) "@") with true
        by (symmetry; apply (Contains_byte_true u' hp "@"%char)).
      cbn [GoStrings.Split list_ascii_of_string app].
      rewrite SplitByte_sep by done. by rewrite SplitByte_no_sep.
    - cbn [app].
      by replace (GoStrings.Contains hp "@") with false
        by (symmetry; apply (Contains_byte_false hp "@"%char Hat)). }
  unfold host_line. fold front. destruct cred as [c|].
  - destruct (Hcred c eq_refl) as [Hne Hc].
    rewrite app_assoc. fold front.
    rewrite host_entry_with_key by done. by rewrite Huser.
  - rewrite app_nil_r. fold front.
    rewrite host_entry_without_key by done. by rewrite Huser.
Qed.

(** The host line of the scenarios. *)
Lemma host_line_defaults_witness :
  host_entry (mkEnviron "alice" "/home/alice") "bob@10.0.0.1 ~/.ssh/k1"
  = Returns (mkHost "bob" "10.0.0.1:22" "/home/alice/.ssh/k1").
Proof.
  destruct (host_line_defaults (mkEnviron "alice" "/home/alice")
              (Some ("bob" : gostring)) "10.0.0.1" (Some ("~/.ssh/k1" : gostring)))
    as (Hentry & Htilde & Hport & _).
  - vm_compute. intros H%list_elem_of_In. cbn in H. intuition discriminate.
  - vm_compute. intros H%list_elem_of_In. cbn in H. intuition discriminate.
  - intros u' [= <-]. split; vm_compute; intros H%list_elem_of_In;
      cbn in H; intuition discriminate.
  - intros c [= <-]. split; [discriminate|].
    vm_compute. intros H%list_elem_of_In. cbn in H. intuition discriminate.
  - refine (eq_trans Hentry _). vm_compute. reflexivity.
Defined.

(** *** Sections *)

Lemma extend_extend o hs1 hs2 :
  extend (extend o hs1) hs2 = extend o (hs1 ++ hs2).
Proof.
  destruct hs1 as [|h1 hs1]; [done|].
  destruct hs2 as [|h2 hs2]; cbn; [by rewrite app_nil_r|].
  by rewrite <- app_assoc.
Qed.

Lemma Contains_byte_elem (s : gostring) (c : ascii) :
  GoStrings.Contains s [c] = true -> c ∈ s.
Proof.
  intros H. destruct (decide (c ∈ s)) as [|Hn]; [done|].
  by rewrite Contains_byte_false in H.
Qed.

Lemma SplitByte_two (s : gostring) (c : ascii) :
  c ∈ s -> exists a b rest,
    GoStrings.SplitByte s c = a :: b :: rest.
Proof.
  intros Hin. apply list_elem_of_split_l in Hin as (a & s' & -> & Ha).
  rewrite SplitByte_sep by done.
  destruct s' as [|x s']; cbn; [by eauto|].
  case_bool_decide; [by eauto|].
  destruct (GoStrings.SplitByte s' c); eauto.
Qed.

(** [host_entry] returns unless the part after the first space is empty. *)
Lemma host_entry_returns e line :
  GoStrings.Split line " " !! 1 <> Some [] ->
  exists h, host_entry e line = Returns h.
Proof.
  intros Hkey. unfold host_entry.
  assert (Hat : forall l : gostring, exists ul,
    (if GoStrings.Contains l "@" then
       let parts := GoStrings.Split l "@" in
       h_user ← index parts 0;
       line0 ← index parts 1;
       mret (h_user, line0)
     else mret (USER e, l)) = Returns ul).
  { intros l. destruct (GoStrings.Contains l "@") eqn:Hc; [|by eauto].
    apply (Contains_byte_elem l "@"%char) in Hc.
    apply SplitByte_two in Hc as (a & b & rest & Hs).
    cbn [GoStrings.Split list_ascii_of_string]. rewrite Hs. cbn. eauto. }
  destruct (GoStrings.Contains line " ") eqn:Hc.
  - apply (Contains_byte_elem line " "%char) in Hc.
    apply SplitByte_two in Hc as (a & b & rest & Hs).
    cbn [GoStrings.Split list_ascii_of_string] in Hkey |- *.
    rewrite Hs in Hkey |- *. cbn in Hkey.
    destruct b as [|x b]; [done|]. cbn.
    destruct (Hat a) as [[u l] Hul]. cbn in Hul. rewrite Hul. cbn.
    destruct (GoNet.SplitHostPort l) as [[hst port] err]. eauto.
  - cbn. destruct (Hat line) as [[u l] Hul]. cbn in Hul. rewrite Hul. cbn.
    destruct (GoNet.SplitHostPort l) as [[hst port] err]. eauto.
Qed.

Lemma unmarshal_loop_sections e tokens m curr :
  (forall c line, (c, line) ∈ sections curr tokens ->
     exists h, host_entry e line = Returns h) ->
  exists m', unmarshal_loop e m curr tokens = Returns m' /\
    forall c, m' !! c = extend (m !! c) (hosts_of e c (sections curr tokens)).
Proof.
  revert m curr. induction tokens as [|text rest IH]; intros m curr Hall.
  { exists m. split; [done|]. intros c. done. }
  cbn [unmarshal_loop sections] in *. unfold unmarshal_line.
  case_bool_decide as Hempty.
  { cbn. by apply IH. }
  destruct (is_header (GoStrings.TrimSpace text)) eqn:Hhead.
  { cbn. by apply IH. }
  destruct (Hall curr (GoStrings.TrimSpace text)) as [h Hh]; [by left|].
  rewrite Hh. cbn [mbind result_bind mret result_ret].
  edestruct (IH (<[curr := default []
                     (match m !! curr with
                      | Some _ => m
                      | None => <[curr := []]> m
                      end !! curr) ++ [h]]>
                 match m !! curr with
                 | Some _ => m
                 | None => <[curr := []]> m
                 end) curr) as (m' & Hm' & Hlook).
  { intros c line Hin. apply (Hall c line). by right. }
  exists m'. split; [done|]. intros c. rewrite Hlook.
  unfold hosts_of at 2. cbn [omap list_omap fst snd]. rewrite Hh.
  fold (hosts_of e c (sections curr rest)).
  case_bool_decide as Hc.
  - subst c. rewrite lookup_insert_eq.
    change (h :: hosts_of e curr (sections curr rest))
      with ([h] ++ hosts_of e curr (sections curr rest)).
    rewrite <- extend_extend. f_equal.
    destruct (m !! curr) as [hs|] eqn:Hm; cbn.
    + by rewrite Hm.
    + by rewrite lookup_insert_eq.
  - rewrite lookup_insert_ne by done.
    destruct (m !! curr) as [hs|] eqn:Hm; [done|].
    by rewrite lookup_insert_ne by done.
Qed.

Lemma extend_None_elem (hs : list host) (h : host) :
  h ∈ hs -> extend None hs = Some hs.
Proof. intros Hin. destruct hs; [by apply elem_of_nil in Hin|done]. Qed.

Lemma sections_host_token curr tokens c line :
  (c, line) ∈ sections curr tokens ->
  exists text, text ∈ tokens /\ host_token text = true
               /\ line = GoStrings.TrimSpace text.
Proof.
  revert curr. induction tokens as [|text rest IH]; intros curr Hin.
  { by apply elem_of_nil in Hin. }
  cbn [sections] in Hin. unfold host_token.
  case_bool_decide as Hempty.
  { destruct (IH _ Hin) as (t & Ht & Hrest). exists t. split; [by right|done]. }
  destruct (is_header (GoStrings.TrimSpace text)) eqn:Hhead.
  { destruct (IH _ Hin) as (t & Ht & Hrest). exists t. split; [by right|done]. }
  apply elem_of_cons in Hin as [[= -> ->]|Hin].
  - exists text. split; [by left|].
    by rewrite bool_decide_false, Hhead by done.
  - destruct (IH _ Hin) as (t & Ht & Hrest). exists t. split; [by right|done].
Qed.

(** A host line belongs to the section that is current when no header
    stands between the start and it. *)
Lemma sections_current curr mid text after :
  Forall (fun t => header_token t = false) mid ->
  host_token text = true ->
  (curr, GoStrings.TrimSpace text) ∈ sections curr (mid ++ text :: after).
Proof.
  intros Hmid Htext. unfold host_token in Htext.
  apply andb_prop in Htext as [Hne Hnh].
  apply negb_true_iff in Hne, Hnh.
  induction Hmid as [|t mid Ht Hmid IH]; cbn [app sections].
  - rewrite Hne, Hnh. by left.
  - unfold header_token in Ht.
    destruct (bool_decide (GoStrings.TrimSpace t = [])); [done|].
    cbn in Ht. rewrite Ht. by right.
Qed.

(** A host line belongs to the section of the nearest header before
    it. *)
Lemma sections_nearest_header curr before hdr mid text after :
  header_token hdr = true ->
  Forall (fun t => header_token t = false) mid ->
  host_token text = true ->
  (section_name hdr, GoStrings.TrimSpace text)
    ∈ sections curr (before ++ hdr :: mid ++ text :: after).
Proof.
  intros Hhdr Hmid Htext. revert curr.
  induction before as [|t before IH]; intros curr; cbn [app sections].
  - unfold header_token in Hhdr. apply andb_prop in Hhdr as [Hne Hh].
    apply negb_true_iff in Hne. rewrite Hne, Hh.
    by apply sections_current.
  - destruct (bool_decide (GoStrings.TrimSpace t = [])); [apply IH|].
    destruct (is_header (GoStrings.TrimSpace t)); [apply IH|].
    right. apply IH.
Qed.

(** C5, as the code has it: [unmarshal] has no error to return; every
    line that is not blank and does not end in a colon is taken as a
    host line.  The lines are those that the scanner hands out, whose
    error [unmarshal] does not look at: all the lines of a text made of
    lines of fewer than 65536 bytes; of a text with a longer line only
    the lines before that one, and what follows is dropped without a
    word.  On a text in which no host line handed out has an empty part
    after its first space [unmarshal] returns a map.  The record of
    every host line handed out is in the entry of the nearest header
    before the line (under the name of the header), and in the entry of
    the empty name when no header stands before the line; the entry of
    a name holds the records of the host lines of its sections in their
    order, and a name without host lines has no entry. *)
Theorem unmarshal_assigns_sections e r :
  (forall text, text ∈ GoBufio.Scan r -> host_token text = true ->
     GoStrings.Split (GoStrings.TrimSpace text) " " !! 1 <> Some []) ->
  (forall ls, r = unlines ls -> Forall scanned_line ls -> GoBufio.Scan r = ls) /\
  (forall ls long rest,
     r = unlines ls ++ long ++ rest -> Forall scanned_line ls ->
     NL ∉ long -> (GoBufio.MaxScanTokenSize <= Z.of_nat (length long))%Z ->
     GoBufio.Scan r = ls) /\
  exists m, unmarshal e r = Returns m /\
    (forall c, m !! c = extend None (hosts_of e c (sections [] (GoBufio.Scan r)))) /\
    (forall before hdr mid text after,
       GoBufio.Scan r = before ++ hdr :: mid ++ text :: after ->
       header_token hdr = true ->
       Forall (fun t => header_token t = false) mid ->
       host_token text = true ->
       exists h hs, host_entry e (GoStrings.TrimSpace text) = Returns h /\
                    m !! section_name hdr = Some hs /\ h ∈ hs) /\
    (forall mid text after,
       GoBufio.Scan r = mid ++ text :: after ->
       Forall (fun t => header_token t = false) mid ->
       host_token text = true ->
       exists h hs, host_entry e (GoStrings.TrimSpace text) = Returns h /\
                    m !! ([] : gostring) = Some hs /\ h ∈ hs).
Proof.
  intros Hkeys.
  split; [intros ls -> Hall; by apply Scan_unlines|].
  split; [intros ls long rest -> Hall Hnl Hlen; by apply Scan_long_line|].
  unfold unmarshal.
  assert (Hret : forall c line, (c, line) ∈ sections [] (GoBufio.Scan r) ->
                   exists h, host_entry e line = Returns h).
  { intros c line Hin. apply host_entry_returns.
    apply sections_host_token in Hin as (text & Ht & Hhost & ->).
    by apply Hkeys. }
  destruct (unmarshal_loop_sections e (GoBufio.Scan r) ∅ [] Hret)
    as (m & Hm & Hlook).
  assert (Hassigned : forall c line,
            (c, line) ∈ sections [] (GoBufio.Scan r) ->
            exists h hs, host_entry e line = Returns h /\ m !! c = Some hs
                         /\ h ∈ hs).
  { intros c line Hin. destruct (Hret c line Hin) as [h Hh].
    assert (Hh_in : h ∈ hosts_of e c (sections [] (GoBufio.Scan r))).
    { unfold hosts_of. apply list_elem_of_omap. exists (c, line).
      split; [done|]. cbn [fst snd].
      rewrite bool_decide_true by done. by rewrite Hh. }
    exists h, (hosts_of e c (sections [] (GoBufio.Scan r))).
    split; [done|]. split; [|done].
    rewrite Hlook, lookup_empty. by eapply extend_None_elem. }
  exists m. split; [done|]. split.
  { intros c. rewrite Hlook. by rewrite lookup_empty. }
  split.
  - intros before hdr mid text after Hscan Hhdr Hmid Htext.
    apply Hassigned. rewrite Hscan. by apply sections_nearest_header.
  - intros mid text after Hscan Hmid Htext.
    apply Hassigned. rewrite Hscan. by apply sections_current.
Qed.

Lemma unmarshal_assigns_sections_witness :
  exists m, unmarshal (mkEnviron "alice" "/home/alice") three_sections = Returns m /\
    m !! ([] : gostring)
      = Some [mkHost "alice" "10.0.0.9:22" "/home/alice/.ssh/id_rsa"] /\
    m !! ("web" : gostring)
      = Some [mkHost "alice" "10.0.0.1:22" "/home/alice/.ssh/k1";
              mkHost "bob" "10.0.0.3:22" "/home/alice/.ssh/id_rsa"] /\
    m !! ("db" : gostring)
      = Some [mkHost "alice" "10.0.0.2:2222" "/home/alice/.ssh/id_rsa"].
Proof.
  destruct (unmarshal_assigns_sections (mkEnviron "alice" "/home/alice")
              three_sections) as (_ & _ & m & Hm & Hlook & _).
  - intros text Hin _. vm_compute in Hin.
    apply list_elem_of_In in Hin. cbn in Hin.
    repeat (destruct Hin as [<-|Hin]; [vm_compute; discriminate|]).
    destruct Hin.
  - exists m. split; [exact Hm|].
    rewrite !Hlook. repeat split; vm_compute; reflexivity.
Defined.

(** C5 as it is written fails: the line [alice@] has a user and no
    host, so it is no host entry of the grammar, and it is no header;
    [unmarshal] returns a map for the text that holds it, with a host
    whose address is the port alone. *)
Lemma parse_error_counterexample :
  spec_interpretable "alice@" = false /\
  unmarshal (mkEnviron "alice" "/home/alice")
    (unlines ["web:" : gostring; "alice@" : gostring])
  = Returns {[ ("web" : gostring)
               := [mkHost "alice" ":22" "/home/alice/.ssh/id_rsa"] ]}.
Proof. split; vm_compute; reflexivity. Qed.

(** ** Retiring a host *)

(** C3 on the scenario: [main] starts the goroutine of the host of the
    line [alice@10.0.0.1 ~/.ssh/k1]; the key works, the output is sent
    and the line for succ.txt is written; the text searched for is
    [alice@10.0.0.1:22 /home/alice/.ssh/k1], which the inventory does
    not hold, so [saveHosts] is unchanged and the file hosts is written
    again with the line of the host still in it. *)
Theorem scenario_line_is_not_removed :
  startup system_k1
    ["cl" : gostring; "web" : gostring; "echo" : gostring; "hi" : gostring] world0
  = (Spawned [web_host] "echo hi" ["k1" : gostring] (mkState web_text world0),
     world0) /\
  outlog web_host = "alice@10.0.0.1:22 /home/alice/.ssh/k1" /\
  let r := task system_k1 web_host "echo hi" ["k1" : gostring]
             (mkState web_text world0) in
  snd r = [Attempt "k1"; OutSend ("Host: 10.0.0.1:22" ++ [NL] ++ "hi" ++ [NL])] /\
  succ_appended (outside (fst r)) = "alice@10.0.0.1:22 k1 hi" ++ [NL] /\
  saveHosts (fst r) = web_text /\
  hosts_rewrites (outside (fst r)) = [web_text] /\
  hosts_content system_k1 (outside (fst r))
  = Some (unlines ["web:" : gostring; "alice@10.0.0.1 ~/.ssh/k1" : gostring]).
Proof. repeat split; vm_compute; reflexivity. Qed.

(** *** Lines written the way the host is stored *)

Lemma HasPrefix_app (p rest : gostring) : GoStrings.HasPrefix (p ++ rest) p = true.
Proof.
  induction p as [|x p IH]; [apply HasPrefix_nil|].
  cbn. by rewrite bool_decide_true, IH.
Qed.

(** A match that starts before the end of a line lies within the line,
    when the text searched for has no newline before its end. *)
Lemma HasPrefix_within_line (o t s rest : gostring) :
  NL ∉ o ->
  GoStrings.HasPrefix (s ++ NL :: rest) (o ++ t) = true ->
  GoStrings.HasPrefix s o = true.
Proof.
  revert s. induction o as [|a o IH]; intros s Hnl H; [apply HasPrefix_nil|].
  apply not_elem_of_cons in Hnl as [Ha Ho].
  destruct s as [|b s]; cbn in H |- *.
  - apply andb_prop in H as [H _]. by apply bool_decide_eq_true in H.
  - apply andb_prop in H as [H1 H2]. rewrite H1. cbn. by apply IH.
Qed.

Lemma replace_from_skip old new n (q rest : gostring) :
  GoStrings.replace_from old new n (length q) (q ++ rest)
  = GoStrings.replace_from old new n 0 rest.
Proof. induction q as [|x q IH]; [done|]. cbn. apply IH. Qed.

Lemma replace_from_unbounded old new n k s :
  (n < 0)%Z ->
  GoStrings.replace_from old new n k s
  = GoStrings.replace_from old new (-1) k s.
Proof.
  revert n k. induction s as [|c s IH]; intros n k Hn; [done|].
  cbn [GoStrings.replace_from]. destruct k as [|k]; [|by apply IH].
  replace (n =? 0)%Z with false by (symmetry; apply Z.eqb_neq; lia).
  cbn [negb andb Z.eqb].
  destruct (GoStrings.HasPrefix (c :: s) old).
  - f_equal. rewrite (IH (n - 1)%Z) by lia. symmetry. by apply IH.
  - f_equal. by apply IH.
Qed.

(** A line that does not hold the text [o] is copied. *)
Lemma replace_from_other_line (o t l rest : gostring) :
  o <> [] -> NL ∉ o -> GoStrings.Contains l o = false ->
  GoStrings.replace_from (o ++ t) [] (-1) 0 (l ++ NL :: rest)
  = l ++ NL :: GoStrings.replace_from (o ++ t) [] (-1) 0 rest.
Proof.
  intros Hne Hnl. induction l as [|c l IH]; intros Hl.
  - cbn [app GoStrings.replace_from]. cbn [Z.eqb negb andb].
    destruct (GoStrings.HasPrefix (NL :: rest) (o ++ t)) eqn:Hp; [|done].
    apply (HasPrefix_within_line o t [] rest Hnl) in Hp.
    by destruct o.
  - cbn [GoStrings.Contains] in Hl. apply orb_false_elim in Hl as [Hl1 Hl2].
    cbn [app GoStrings.replace_from]. cbn [Z.eqb negb andb].
    destruct (GoStrings.HasPrefix (c :: l ++ NL :: rest) (o ++ t)) eqn:Hp.
    + apply (HasPrefix_within_line o t (c :: l) rest Hnl) in Hp. congruence.
    + f_equal. by apply IH.
Qed.

(** A line that is the text [o] goes away with its newline. *)
Lemma replace_from_same_line (o rest : gostring) :
  o <> [] ->
  GoStrings.replace_from (o ++ [NL]) [] (-1) 0 (o ++ NL :: rest)
  = GoStrings.replace_from (o ++ [NL]) [] (-1) 0 rest.
Proof.
  intros Hne.
  replace (o ++ NL :: rest) with ((o ++ [NL]) ++ rest)
    by (by rewrite <- app_assoc).
  destruct (o ++ [NL]) as [|x p] eqn:Hp; [by destruct o|].
  cbn [app GoStrings.replace_from]. cbn [Z.eqb negb andb].
  change (x :: p ++ rest) with ((x :: p) ++ rest).
  rewrite HasPrefix_app. cbn [app length].
  replace (S (length p) - 1) with (length p) by lia.
  rewrite replace_from_skip. by apply replace_from_unbounded.
Qed.

Lemma retire_first_pass (o : gostring) (ls : list gostring) :
  o <> [] -> NL ∉ o ->
  Forall (fun l => l = o \/ GoStrings.Contains l o = false) ls ->
  GoStrings.replace_from (o ++ [NL]) [] (-1) 0 (unlines ls)
  = unlines (filter (fun l => l <> o) ls).
Proof.
  intros Hne Hnl Hall. induction Hall as [|l ls Hl Hall IH]; [done|].
  unfold unlines. cbn [map concat]. fold (unlines ls).
  rewrite <- app_assoc. cbn [app].
  destruct (decide (l = o)) as [->|Hlo].
  - rewrite replace_from_same_line by done. rewrite IH.
    by rewrite filter_cons_False by (intros Hx; by apply Hx).
  - destruct Hl as [|Hl]; [done|].
    rewrite replace_from_other_line by done. rewrite IH.
    rewrite filter_cons_True by done.
    unfold unlines. cbn [map concat]. by rewrite <- app_assoc.
Qed.

Lemma retire_second_pass (o : gostring) (ls : list gostring) :
  o <> [] -> NL ∉ o ->
  Forall (fun l => GoStrings.Contains l o = false) ls ->
  GoStrings.replace_from o [] (-1) 0 (unlines ls) = unlines ls.
Proof.
  intros Hne Hnl Hall. induction Hall as [|l ls Hl Hall IH]; [done|].
  unfold unlines. cbn [map concat]. fold (unlines ls).
  rewrite <- app_assoc. cbn [app].
  rewrite <- (app_nil_r o) at 1.
  rewrite replace_from_other_line by done.
  rewrite app_nil_r. by rewrite IH.
Qed.

Lemma outlog_not_empty h : outlog h <> [].
Proof. unfold outlog. intros H. apply app_eq_nil in H as [_ H]. discriminate. Qed.

(** X26: what the two replacements do on an inventory whose lines are either
    the text that stands for the host (user, address with its port, key
    path as stored, one space between them) or do not hold that text:
    the lines of the host go away, the others stay. *)
Lemma retire_stored_lines (h : host) (ls : list gostring) :
  NL ∉ outlog h ->
  Forall (fun l => l = outlog h \/ GoStrings.Contains l (outlog h) = false) ls ->
  retire h (unlines ls) = unlines (filter (fun l => l <> outlog h) ls).
Proof.
  intros Hnl Hall. pose proof (outlog_not_empty h) as Hne.
  unfold retire, GoStrings.Replace.
  destruct (outlog h ++ [NL]) as [|x p] eqn:Hp; [by destruct (outlog h)|].
  rewrite <- Hp. rewrite retire_first_pass by done.
  destruct (outlog h) as [|y o] eqn:Ho; [done|]. rewrite <- Ho in *.
  apply retire_second_pass; [done..|].
  apply Forall_forall. intros l Hl.
  apply list_elem_of_filter in Hl as [Hlo Hl].
  rewrite Forall_forall in Hall.
  by destruct (Hall l Hl) as [|].
Qed.

(** The scenario with its line written the way the host is stored. *)
Lemma retire_stored_scenario :
  retire web_host
    (unlines ["web:" : gostring;
              "alice@10.0.0.1:22 /home/alice/.ssh/k1" : gostring])
  = unlines ["web:" : gostring].
Proof. vm_compute. reflexivity. Qed.

(** ** Reading the file hosts line by line *)

Lemma read_from_line (acc l rest : gostring) (n : Z) :
  NL ∉ l -> (n + Z.of_nat (length l) < GoBufio.defaultBufSize)%Z ->
  GoBufio.read_from acc n (l ++ NL :: rest)
  = GoBufio.dropCR_rev (rev l ++ acc) :: GoBufio.read_from [] 0 rest.
Proof.
  revert acc n. induction l as [|c l IH]; intros acc n Hnl Hlen.
  - cbn. by rewrite bool_decide_true.
  - apply not_elem_of_cons in Hnl as [Hc Hl].
    cbn [app GoBufio.read_from]. rewrite bool_decide_false by done.
    cbn [length] in Hlen.
    replace (n + 1 <? GoBufio.defaultBufSize)%Z with true
      by (symmetry; apply Z.ltb_lt; lia).
    rewrite IH by (done || lia). cbn [rev]. by rewrite <- app_assoc.
Qed.

(** X28: [main] keeps in [saveHosts] the very text of the file when its
    lines have no newline inside, no carriage return at the end and
    fewer bytes than the buffer of the reader. *)
Lemma ReadLines_unlines (ls : list gostring) :
  Forall (fun l => (NL ∉ l) /\ last l <> Some CR /\
                   (Z.of_nat (length l) < GoBufio.defaultBufSize)%Z) ls ->
  unlines (GoBufio.ReadLines (unlines ls)) = unlines ls.
Proof.
  intros Hall. f_equal. unfold GoBufio.ReadLines.
  induction Hall as [|l ls (Hnl & Hcr & Hlen) Hall IH]; [done|].
  unfold unlines. cbn [map concat]. fold (unlines ls).
  rewrite <- app_assoc. cbn [app].
  rewrite read_from_line by (done || lia).
  rewrite app_nil_r, dropCR_rev_plain by done. by rewrite IH.
Qed.

(** ** The scenario from start to exit *)

(** The run of the scenario when the key works: the label of the host
    goes to the standard error, the output to the standard output with
    two spaces before each line (the first of them is the end of the
    label line), and the exit status is 0. *)
Example scenario_run :
  let l := enter_loop system_k1 "cl" [web_host] "echo hi" ["k1" : gostring]
             (mkState web_text world0) in
  sending l = [[OnOut ("Host: 10.0.0.1:22" ++ [NL] ++ "hi" ++ [NL])]] /\
  (fun l' => (stderr (term l'), stdout (term l'), exit_status l'))
    <$> steps l [SelectOut 0; SelectOutClosed]
  = Some ("Host: 10.0.0.1:22" : gostring,
          "  " ++ [NL] ++ "  hi" ++ [NL], Some 0%Z).
Proof. split; vm_compute; reflexivity. Qed.

(** * Further properties *)

(** ** [run] *)

(** X1: [run] returns no error exactly when the key file is read and
    parsed, the connection and the session are opened, and the command
    ends without an error or with an exit error; what it returns then
    is the output of the command. *)
Theorem run_returns_no_error_iff r h cmd cert :
  snd (run r h cmd cert) = None <->
  exists key sgn conn sess b st,
    ReadFile r cert = Ok key /\
    ParsePrivateKey r key = Ok sgn /\
    Dial r (addr h) (user h) sgn = Ok conn /\
    NewSession r conn = Ok sess /\
    CombinedOutput r sess cmd = (b, st) /\
    (forall e, st <> OtherError e) /\
    fst (run r h cmd cert) = b.
Proof.
  unfold run. split.
  - intros H.
    destruct (ReadFile r cert) as [key|] eqn:Hread; [|done].
    destruct (ParsePrivateKey r key) as [sgn|] eqn:Hparse; [|done].
    destruct (Dial r (addr h) (user h) sgn) as [conn|] eqn:Hdial; [|done].
    destruct (NewSession r conn) as [sess|] eqn:Hsess; [|done].
    destruct (CombinedOutput r sess cmd) as [b st] eqn:Hout.
    exists key, sgn, conn, sess, b, st.
    rewrite Hparse, Hdial, Hsess, Hout.
    by destruct st.
  - intros (key & sgn & conn & sess & b & st & -> & -> & -> & -> & -> & Hst & _).
    destruct st; [done|done|]. by destruct (Hst e).
Qed.

(** X2: an error of [run] comes with output only when the command was
    started in a session and ended with an error that is no exit error;
    every failure before that (key file, key, connection, session) gives
    the error with an empty output. *)
Theorem run_error_with_output r h cmd cert e :
  snd (run r h cmd cert) = Some e ->
  fst (run r h cmd cert) <> [] ->
  exists key sgn conn sess,
    ReadFile r cert = Ok key /\
    ParsePrivateKey r key = Ok sgn /\
    Dial r (addr h) (user h) sgn = Ok conn /\
    NewSession r conn = Ok sess /\
    CombinedOutput r sess cmd = (fst (run r h cmd cert), OtherError e).
Proof.
  unfold run. intros He Hb.
  destruct (ReadFile r cert) as [key|] eqn:Hread; [|done].
  destruct (ParsePrivateKey r key) as [sgn|] eqn:Hparse; [|done].
  destruct (Dial r (addr h) (user h) sgn) as [conn|] eqn:Hdial; [|done].
  destruct (NewSession r conn) as [sess|] eqn:Hsess; [|done].
  destruct (CombinedOutput r sess cmd) as [b st] eqn:Hout.
  exists key, sgn, conn, sess. rewrite Hparse, Hdial, Hsess.
  destruct st; cbn in He |- *; try done.
  injection He as ->. by rewrite Hout.
Qed.

(** The connection is lost while the command prints. *)
Lemma run_error_with_output_witness :
  let r := remote_accepting ["certs/k1" : gostring] "partial"
             (OtherError "EOF") in
  CombinedOutput r tt "uptime" = ("partial" : gostring, OtherError "EOF").
Proof.
  intros r.
  destruct (run_error_with_output r web_host "uptime" "certs/k1" "EOF")
    as (key & sgn & conn & sess & _ & _ & _ & _ & Hout).
  - vm_compute. reflexivity.
  - vm_compute. discriminate.
  - destruct sess. exact Hout.
Defined.

(** ** [unmarshal] *)

Lemma unmarshal_line_entries e m curr text m' curr' :
  unmarshal_line e m curr text = Returns (m', curr') ->
  (forall c hs, m !! c = Some hs -> hs <> []) ->
  forall c hs, m' !! c = Some hs -> hs <> [].
Proof.
  unfold unmarshal_line. intros H Hm.
  case_bool_decide; [by injection H as <- <-|].
  destruct (is_header _); [by injection H as <- <-|].
  destruct (host_entry e _) as [h|]; [|done].
  cbn in H. injection H as <- <-. intros c hs.
  destruct (decide (c = curr)) as [->|Hc].
  - rewrite lookup_insert_eq. intros [= <-]. by intros [_ ?]%app_eq_nil.
  - rewrite lookup_insert_ne by done.
    destruct (m !! curr) eqn:Hcurr; [apply Hm|].
    rewrite lookup_insert_ne by done. apply Hm.
Qed.

Lemma unmarshal_loop_entries e tokens m curr m' :
  unmarshal_loop e m curr tokens = Returns m' ->
  (forall c hs, m !! c = Some hs -> hs <> []) ->
  forall c hs, m' !! c = Some hs -> hs <> [].
Proof.
  revert m curr. induction tokens as [|text rest IH]; intros m curr H Hm.
  { by injection H as <-. }
  cbn [unmarshal_loop] in H.
  destruct (unmarshal_line e m curr text) as [[m1 curr1]|] eqn:Hline; [|done].
  cbn in H. eapply IH; [done|]. by eapply unmarshal_line_entries.
Qed.

(** X3: the map that [unmarshal] returns has no empty entry: a name is
    in the map only with at least one host. *)
Theorem unmarshal_entries_not_empty e r m c hs :
  unmarshal e r = Returns m -> m !! c = Some hs ->
  exists h rest, hs = h :: rest.
Proof.
  intros H Hc. destruct hs as [|h rest]; [|by eauto].
  exfalso. eapply (unmarshal_loop_entries e _ ∅ [] m H); [|exact Hc|done].
  intros c' hs'. by rewrite lookup_empty.
Qed.

Lemma unmarshal_entries_not_empty_witness :
  exists h rest, [web_host] = h :: rest.
Proof.
  apply (unmarshal_entries_not_empty (mkEnviron "alice" "/home/alice")
           web_text {[ ("web" : gostring) := [web_host] ]} "web").
  - vm_compute. reflexivity.
  - vm_compute. reflexivity.
Defined.

Lemma Split_second_part (line : gostring) (c : ascii) (p : gostring) :
  GoStrings.SplitByte line c !! 1 = Some p ->
  GoStrings.Contains line [c] = true.
Proof.
  intros Hp. destruct (decide (c ∈ line)) as [Hin|Hn].
  - apply list_elem_of_split_l in Hin as (a & rest & -> & _).
    apply Contains_byte_true.
  - by rewrite SplitByte_no_sep in Hp.
Qed.

Lemma unmarshal_line_empty_key e m curr text :
  empty_key_token text ->
  unmarshal_line e m curr text = Panic IndexOutOfRange.
Proof.
  intros [Htok Hkey]. unfold host_token in Htok.
  apply andb_prop in Htok as [Hne Hnh]. apply negb_true_iff in Hne, Hnh.
  unfold unmarshal_line. rewrite Hne, Hnh.
  replace (host_entry e (GoStrings.TrimSpace text))
    with (@Panic host IndexOutOfRange); [done|].
  unfold host_entry.
  replace (GoStrings.Contains (GoStrings.TrimSpace text) " ") with true
    by (symmetry; by eapply (Split_second_part _ " "%char)).
  by rewrite (index_Some _ _ _ Hkey).
Qed.

Lemma unmarshal_empty_key e r text :
  text ∈ GoBufio.Scan r -> empty_key_token text ->
  unmarshal e r = Panic IndexOutOfRange.
Proof.
  intros Hin Hkey. unfold unmarshal.
  apply list_elem_of_split in Hin as (before & after & ->).
  apply unmarshal_loop_panics_at. intros m curr.
  by apply unmarshal_line_empty_key.
Qed.

(** X4: [unmarshal] panics exactly when one of the lines that its
    scanner hands out is a host line whose part after the first space
    is empty; in every other case it returns a map.  (A line that the
    scanner does not hand out, because a line of 65536 bytes or more
    stands before it, is never looked at.) *)
Theorem unmarshal_panics_iff e r :
  (unmarshal e r = Panic IndexOutOfRange <->
   exists text, text ∈ GoBufio.Scan r /\ empty_key_token text) /\
  ((exists m, unmarshal e r = Returns m) <->
   Forall (fun text => ~ empty_key_token text) (GoBufio.Scan r)).
Proof.
  assert (Hret : Forall (fun text => ~ empty_key_token text) (GoBufio.Scan r) ->
                 exists m, unmarshal e r = Returns m).
  { intros Hno. rewrite Forall_forall in Hno.
    destruct (unmarshal_loop_sections e (GoBufio.Scan r) ∅ []) as (m & Hm & _).
    - intros c line Hin. apply host_entry_returns.
      apply sections_host_token in Hin as (text & Ht & Hhost & ->).
      intros Hkey. by apply (Hno text Ht).
    - by exists m. }
  split; split.
  - intros Hpanic.
    destruct (decide (Exists empty_key_token (GoBufio.Scan r))) as [Hex|Hno].
    { by apply Exists_exists in Hex. }
    exfalso. apply not_Exists_Forall in Hno; [|apply _].
    destruct (Hret Hno) as [m Hm]. congruence.
  - intros (text & Hin & Hkey). by eapply unmarshal_empty_key.
  - intros [m Hm]. apply Forall_forall. intros text Hin Hkey.
    rewrite (unmarshal_empty_key e r text Hin Hkey) in Hm. discriminate Hm.
  - exact Hret.
Qed.

(** X5: what follows a second space on a host line is not looked at:
    the line gives the record (or the panic) of its first two parts. *)
Theorem host_entry_ignores_further_parts e front c more :
  " "%char ∉ front -> " "%char ∉ c ->
  host_entry e (front ++ " " ++ c ++ " " ++ more)
  = host_entry e (front ++ " " ++ c).
Proof.
  intros Hfront Hc.
  assert (Hlong : GoStrings.Split (front ++ " " ++ c ++ " " ++ more) " "
                  = front :: c :: GoStrings.SplitByte more " "%char).
  { cbn [GoStrings.Split list_ascii_of_string app].
    rewrite SplitByte_sep by done. by rewrite SplitByte_sep by done. }
  assert (Hshort : GoStrings.Split (front ++ " " ++ c) " " = [front; c]).
  { cbn [GoStrings.Split list_ascii_of_string app].
    rewrite SplitByte_sep by done. by rewrite SplitByte_no_sep. }
  unfold host_entry. rewrite Hlong, Hshort.
  replace (GoStrings.Contains (front ++ " " ++ c ++ " " ++ more) " ") with true
    by (symmetry; apply (Contains_byte_true front _ " "%char)).
  replace (GoStrings.Contains (front ++ " " ++ c) " ") with true
    by (symmetry; apply (Contains_byte_true front c " "%char)).
  reflexivity.
Qed.

Lemma host_entry_ignores_further_parts_witness :
  host_entry (mkEnviron "alice" "/home/alice") "bob@10.0.0.1 k1 k2 k3"
  = Returns (mkHost "bob" "10.0.0.1:22" "k1").
Proof.
  refine (eq_trans (host_entry_ignores_further_parts
            (mkEnviron "alice" "/home/alice") "bob@10.0.0.1" "k1" "k2 k3" _ _) _).
  - vm_compute. intros H%list_elem_of_In. cbn in H. intuition discriminate.
  - vm_compute. intros H%list_elem_of_In. cbn in H. intuition discriminate.
  - vm_compute. reflexivity.
Defined.

Lemma IndexByte_Some (s : gostring) (c : ascii) :
  c ∈ s -> GoNet.IndexByte s c <> None.
Proof.
  induction s as [|x s IH]; intros Hin; [by apply elem_of_nil in Hin|].
  cbn. case_bool_decide; [done|].
  apply elem_of_cons in Hin as [->|Hin]; [done|].
  by destruct (GoNet.IndexByte s c); [|apply IH in Hin].
Qed.

Lemma LastIndexByte_last (a rest : gostring) (c : ascii) :
  c ∉ rest -> GoNet.LastIndexByte (a ++ c :: rest) c = Some (length a).
Proof.
  intros Hrest. induction a as [|x a IH].
  - cbn. rewrite LastIndexByte_None by done. by rewrite bool_decide_true.
  - cbn [app GoNet.LastIndexByte length]. by rewrite IH.
Qed.

Lemma host_entry_host_port e hst port :
  hst <> [] ->
  (forall c, c ∈ [" "; "@"; ":"; "["; "]"]%char -> (c ∉ hst) /\ (c ∉ port)) ->
  host_entry e (hst ++ ":" ++ port) =
    Returns {| user := USER e;
               addr := hst ++ ":" ++ (if bool_decide (port = []) then "22" : gostring
                                      else port);
               identity := GoPath.Join [HOME e; ".ssh" : gostring;
                                        "id_rsa" : gostring] |}.
Proof.
  intros Hne Hno.
  assert (Hin : forall c, c ∈ [" "; "@"; "["; "]"]%char ->
                  c ∉ hst ++ ":" ++ port).
  { intros c Hc. destruct (Hno c) as [H1 H2].
    - apply list_elem_of_In in Hc. apply list_elem_of_In. cbn in Hc |- *.
      intuition.
    - rewrite not_elem_of_app. split; [done|].
      apply not_elem_of_cons. split; [|done].
      intros ->. apply list_elem_of_In in Hc. cbn in Hc.
      intuition discriminate. }
  assert (Hcolon : (":"%char ∉ hst) /\ (":"%char ∉ port)).
  { apply Hno. apply list_elem_of_In. cbn. tauto. }
  destruct Hcolon as [Hc1 Hc2].
  rewrite host_entry_without_key
    by (apply Hin; apply list_elem_of_In; cbn; tauto).
  replace (GoStrings.Contains (hst ++ ":" ++ port) "@") with false.
  2:{ symmetry. apply (Contains_byte_false _ "@"%char).
      apply Hin. apply list_elem_of_In. cbn. tauto. }
  cbn [mbind result_bind mret result_ret]. do 2 f_equal.
  unfold stored_addr, GoNet.SplitHostPort.
  change (hst ++ ":" ++ port) with (hst ++ ":"%char :: port).
  rewrite LastIndexByte_last by done.
  rewrite bool_decide_false.
  2:{ destruct hst as [|x hst]; [done|]. intros [= ->].
      destruct (Hno "["%char) as [H _]; [apply list_elem_of_In; cbn; tauto|].
      apply H. by left. }
  rewrite take_app_length.
  rewrite (bool_decide_false (GoNet.IndexByte hst ":"%char <> None))
    by (rewrite IndexByte_None by done; tauto).
  cbn [drop].
  rewrite (bool_decide_false (GoNet.IndexByte _ "["%char <> None)).
  2:{ rewrite IndexByte_None; [tauto|].
      apply (Hin "["%char). apply list_elem_of_In. cbn. tauto. }
  rewrite (bool_decide_false (GoNet.IndexByte _ "]"%char <> None)).
  2:{ rewrite IndexByte_None; [tauto|].
      apply (Hin "]"%char). apply list_elem_of_In. cbn. tauto. }
  replace (length hst + 1) with (length (hst ++ [":"%char]))
    by (rewrite length_app; cbn; lia).
  replace (hst ++ ":"%char :: port) with ((hst ++ [":"%char]) ++ port)
    by (by rewrite <- app_assoc).
  rewrite drop_app_length.
  rewrite (bool_decide_false (hst = [])) by done.
  unfold GoNet.JoinHostPort.
  by rewrite (bool_decide_false (GoNet.IndexByte hst ":"%char <> None))
    by (rewrite IndexByte_None by done; tauto).
Qed.

Lemma is_header_last (line : gostring) :
  is_header line = bool_decide (last line = Some ":"%char).
Proof.
  unfold is_header. rewrite last_lookup.
  by replace (length line - 1) with (pred (length line)) by lia.
Qed.

(** X6: a host line [host:port] without at sign, space or bracket, with
    one colon and something after it is no header, and its host is
    stored with that port, the user and the key path being the
    defaults.  The same line with nothing after the colon is a header
    (lines 52-55): it names a section and stores no host. *)
Theorem host_entry_keeps_port e hst port :
  hst <> [] -> port <> [] ->
  (forall c, c ∈ [" "; "@"; ":"; "["; "]"]%char -> (c ∉ hst) /\ (c ∉ port)) ->
  is_header (hst ++ ":" ++ port) = false /\
  host_entry e (hst ++ ":" ++ port) =
    Returns {| user := USER e;
               addr := hst ++ ":" ++ port;
               identity := GoPath.Join [HOME e; ".ssh" : gostring;
                                        "id_rsa" : gostring] |} /\
  is_header (hst ++ ":") = true.
Proof.
  intros Hne Hport Hno.
  assert (Hcolon : ":"%char ∉ port).
  { apply (Hno ":"%char). apply list_elem_of_In. cbn. tauto. }
  split; [|split].
  - rewrite is_header_last. apply bool_decide_eq_false.
    change (hst ++ ":" ++ port) with (hst ++ ":"%char :: port).
    rewrite last_app, last_cons.
    destruct (last port) as [x|] eqn:Hlast.
    + intros [= ->]. apply Hcolon.
      apply last_Some in Hlast as [l' ->].
      apply elem_of_app. right. by left.
    + by apply last_None in Hlast.
  - rewrite host_entry_host_port by done.
    by rewrite (bool_decide_false (port = [])) by done.
  - rewrite is_header_last. apply bool_decide_eq_true.
    change (hst ++ ":") with (hst ++ [":"%char]). apply last_snoc.
Qed.

Lemma host_entry_keeps_port_witness :
  is_header "db1.example.org:2222" = false /\
  host_entry (mkEnviron "alice" "/home/alice") "db1.example.org:2222"
  = Returns (mkHost "alice" "db1.example.org:2222" "/home/alice/.ssh/id_rsa") /\
  is_header "db1.example.org:" = true.
Proof.
  destruct (host_entry_keeps_port (mkEnviron "alice" "/home/alice")
              "db1.example.org" "2222") as (Hh & Hentry & Hhdr).
  - discriminate.
  - discriminate.
  - intros c Hc. apply list_elem_of_In in Hc. cbn in Hc.
    split; intros H%list_elem_of_In; cbn in H;
      intuition (subst; discriminate).
  - split; [exact Hh|]. split; [|exact Hhdr].
    refine (eq_trans Hentry _). vm_compute. reflexivity.
Defined.

(** X7: a host part with more than one colon and no bracket at its
    start (an IPv6 address written without brackets) is stored whole, in
    brackets, with the port 22. *)
Theorem host_entry_brackets_colons e x c :
  ":"%char ∈ x -> ":"%char ∉ c ->
  (x ++ ":" ++ c) !! 0 <> Some "["%char ->
  " "%char ∉ x ++ ":" ++ c -> "@"%char ∉ x ++ ":" ++ c ->
  host_entry e (x ++ ":" ++ c) =
    Returns {| user := USER e;
               addr := "[" ++ (x ++ ":" ++ c) ++ "]:22";
               identity := GoPath.Join [HOME e; ".ssh" : gostring;
                                        "id_rsa" : gostring] |}.
Proof.
  intros Hx Hc Hfirst Hsp Hat.
  rewrite host_entry_without_key by done.
  replace (GoStrings.Contains (x ++ ":" ++ c) "@") with false
    by (symmetry; by apply (Contains_byte_false _ "@"%char)).
  cbn [mbind result_bind mret result_ret]. do 2 f_equal.
  unfold stored_addr, GoNet.SplitHostPort.
  change (x ++ ":" ++ c) with (x ++ ":"%char :: c) in *.
  rewrite LastIndexByte_last by done.
  rewrite (bool_decide_false _ Hfirst). rewrite take_app_length.
  rewrite (bool_decide_true (GoNet.IndexByte x ":"%char <> None))
    by (by apply IndexByte_Some).
  rewrite (bool_decide_true ([] = [])) by done.
  unfold GoNet.JoinHostPort.
  rewrite bool_decide_true; [done|].
  apply IndexByte_Some. apply elem_of_app. by left.
Qed.

Lemma host_entry_brackets_colons_witness :
  host_entry (mkEnviron "alice" "/home/alice") "fe80::1"
  = Returns (mkHost "alice" "[fe80::1]:22" "/home/alice/.ssh/id_rsa").
Proof.
  refine (eq_trans (host_entry_brackets_colons (mkEnviron "alice" "/home/alice")
            "fe80:" "1" _ _ _ _ _) _).
  - apply list_elem_of_In. cbn. tauto.
  - intros H%list_elem_of_In. cbn in H. intuition discriminate.
  - discriminate.
  - intros H%list_elem_of_In. cbn in H. intuition discriminate.
  - intros H%list_elem_of_In. cbn in H. intuition discriminate.
  - vm_compute. reflexivity.
Defined.

Lemma unmarshal_loop_no_hosts e tokens m curr :
  Forall (fun t => host_token t = false) tokens ->
  unmarshal_loop e m curr tokens = Returns m.
Proof.
  intros Hall. revert curr.
  induction Hall as [|text rest Ht Hall IH]; intros curr; [done|].
  cbn [unmarshal_loop]. unfold unmarshal_line. unfold host_token in Ht.
  case_bool_decide; [apply IH|].
  cbn in Ht. apply negb_false_iff in Ht. rewrite Ht. apply IH.
Qed.

(** X8: headers alone make no entry: for a file hosts that has no host
    line (only headers and blank lines) [unmarshal] returns the empty
    map, and [main] leaves with status 1 whatever cluster is named. *)
Theorem inventory_without_hosts sys data :
  hosts_in sys = Ok data ->
  Forall (fun t => host_token t = false) (GoBufio.Scan data) ->
  unmarshal (env sys) data = Returns ∅ /\
  forall prog name arg more w,
    fst (startup sys (prog :: name :: arg :: more) w) = Exit 1.
Proof.
  intros Hin Hall.
  assert (Hm : unmarshal (env sys) data = Returns ∅)
    by (by apply unmarshal_loop_no_hosts).
  split; [done|]. intros prog name arg more w. unfold startup.
  cbn [index lookup list_lookup].
  rewrite bool_decide_false by (cbn; lia).
  rewrite Hin, Hm. destruct (readCerts sys w) as [certs w'].
  by rewrite lookup_empty.
Qed.

(** Every host of the cluster web has been taken out of the file. *)
Lemma inventory_without_hosts_witness :
  fst (startup (system_of (unlines ["web:" : gostring; [] ; "db:" : gostring])
                  (Ok [("k1" : gostring, false)])
                  (remote_accepting ["certs/k1" : gostring] "hi" CmdDone))
         ["cl" : gostring; "web" : gostring; "uptime" : gostring] world0)
  = Exit 1.
Proof.
  refine (proj2 (inventory_without_hosts
            (system_of (unlines ["web:" : gostring; [] ; "db:" : gostring])
               (Ok [("k1" : gostring, false)])
               (remote_accepting ["certs/k1" : gostring] "hi" CmdDone))
            (unlines ["web:" : gostring; [] ; "db:" : gostring]) _ _)
          "cl" "web" "uptime" [] world0).
  - reflexivity.
  - replace (GoBufio.Scan (unlines ["web:" : gostring; []; "db:" : gostring]))
      with [("web:" : gostring); []; ("db:" : gostring)]
      by (vm_compute; reflexivity).
    repeat (constructor; [vm_compute; reflexivity|]). constructor.
Defined.

(** ** The goroutine of one host, further *)

(** X9: a host for which every key fails changes nothing: [saveHosts],
    the file hosts, succ.txt and the standard streams are as before. *)
Theorem task_without_success_keeps_state sys h cmd certs st :
  (forall c, c ∈ certs -> run_error sys h cmd c <> None) ->
  fst (task sys h cmd certs st) = st.
Proof.
  intros Hall. rewrite <- (app_nil_r certs).
  by rewrite task_failing_prefix.
Qed.

Lemma task_without_success_keeps_state_witness :
  fst (task (system_of web_text (Ok [("k1" : gostring, false)])
               (remote_accepting [] "hi" CmdDone))
         web_host "uptime" ["k1" : gostring; "k2" : gostring]
         (mkState web_text world0))
  = mkState web_text world0.
Proof.
  apply task_without_success_keeps_state.
  intros c Hc. vm_compute. discriminate.
Defined.

(** X10: when the file hosts cannot be opened for writing, the goroutine
    of a host whose key works prints the error and returns: it sends
    nothing on [out], appends nothing to succ.txt and does not rewrite
    hosts, although the command has run and the host has been taken out
    of [saveHosts]; the errors of the keys before are all it sends. *)
Theorem task_cannot_open_hosts sys h cmd before cert rest st e :
  create_hosts sys = Some e ->
  (forall c, c ∈ before -> run_error sys h cmd c <> None) ->
  run_error sys h cmd cert = None ->
  let r := task sys h cmd (before ++ cert :: rest) st in
  successes (snd r) = [] /\
  sends (snd r) = OnErrs <$> omap (run_error sys h cmd) before /\
  saveHosts (fst r) = retire h (saveHosts st) /\
  hosts_rewrites (outside (fst r)) = hosts_rewrites (outside st) /\
  succ_appended (outside (fst r)) = succ_appended (outside st) /\
  stdout (outside (fst r)) = stdout (outside st) ++ e ++ [NL].
Proof.
  intros Hcreate Hbefore Hok r. subst r.
  rewrite task_failing_prefix by done. cbn [fst snd].
  rewrite task_worked_events, task_worked_state by done.
  rewrite Hcreate. cbn [saveHosts outside to_stdout hosts_rewrites
                        succ_appended stdout].
  split.
  { unfold successes. rewrite omap_app. fold (successes (before ≫= failed_attempt sys h cmd)).
    by rewrite successes_failed_attempts. }
  split; [|done].
  clear Hok. induction before as [|c before IH]; [done|].
  rewrite bind_cons. unfold failed_attempt at 1.
  destruct (run_error sys h cmd c) as [e'|] eqn:He.
  2:{ exfalso. by apply (Hbefore c); [left|]. }
  cbn [app omap list_omap]. rewrite He. cbn.
  f_equal. apply IH. intros c' Hc'. apply Hbefore. by right.
Qed.

Lemma task_cannot_open_hosts_witness :
  let sys := {| env := mkEnviron "alice" "/home/alice";
                hosts_in := Ok web_text;
                hosts_opens := true;
                certs_in := Ok [("k1" : gostring, false)];
                create_hosts := Some ("open hosts: permission denied" : gostring);
                append_succ := None;
                write_succ := None;
                close_succ := None;
                net := remote_accepting ["certs/k1" : gostring] "hi" CmdDone |} in
  let r := task sys web_host "uptime" ["k1" : gostring] (mkState web_text world0) in
  sends (snd r) = [] /\ succ_appended (outside (fst r)) = [].
Proof.
  intros sys r.
  destruct (task_cannot_open_hosts sys web_host "uptime" [] "k1" []
              (mkState web_text world0) "open hosts: permission denied")
    as (_ & Hsends & _ & _ & Hsucc & _).
  - reflexivity.
  - intros c Hc. by apply elem_of_nil in Hc.
  - vm_compute. reflexivity.
  - split; [exact Hsends | exact Hsucc].
Defined.

(** X11: a goroutine calls [run] at most once for each key, sends at
    most one message on [out], sends nothing after it, and sends on
    [errs] one error for each call but the one that worked. *)
Theorem task_sends_at_most_one_success sys h cmd certs st :
  let evs := snd (task sys h cmd certs st) in
  length (attempts evs) <= length certs /\
  length (successes evs) <= 1 /\
  length (attempts evs) <= length (failures evs) + 1 /\
  length (failures evs) <= length (attempts evs) /\
  sends evs = (OnErrs <$> failures evs) ++ (OnOut <$> successes evs).
Proof.
  cbn zeta. induction certs as [|c rest IH]; [cbn; repeat split; lia|].
  destruct (run_error sys h cmd c) as [e|] eqn:He.
  - rewrite (task_failed _ _ _ _ _ _ e) by done. cbn [snd].
    rewrite attempts_cons, attempts_errs, successes_attempt, successes_errs,
      failures_attempt, failures_cons.
    destruct IH as (H1 & H2 & H3 & H4 & H5). cbn [length].
    repeat split; try lia.
    change (sends (Attempt c :: ErrsSend e :: snd (task sys h cmd rest st)))
      with (OnErrs e :: sends (snd (task sys h cmd rest st))).
    by rewrite H5.
  - rewrite task_worked_events by done.
    destruct (create_hosts sys); cbn; repeat split; lia.
Qed.

Lemma task_out_newline sys h cmd certs st p :
  OnOut p ∈ sends (snd (task sys h cmd certs st)) -> NL ∈ p.
Proof.
  induction certs as [|c rest IH]; [by intros ?%elem_of_nil|].
  destruct (run_error sys h cmd c) as [e|] eqn:He.
  - rewrite (task_failed _ _ _ _ _ _ e) by done. cbn [snd].
    change (sends (Attempt c :: ErrsSend e :: snd (task sys h cmd rest st)))
      with (OnErrs e :: sends (snd (task sys h cmd rest st))).
    intros [[=]|Hin]%elem_of_cons. by apply IH.
  - rewrite task_worked_events by done.
    destruct (create_hosts sys); cbn; [by intros ?%elem_of_nil|].
    intros [= ->]%list_elem_of_singleton.
    do 6 right. apply elem_of_app. right. by left.
Qed.

(** ** The loop, further *)

Lemma sending_tail_ok (qs : list (list message)) i m q :
  Forall (Forall message_ok) qs -> qs !! i = Some (m :: q) ->
  message_ok m /\ Forall (Forall message_ok) (<[i := q]> qs).
Proof.
  intros Hall Hi.
  pose proof (Forall_lookup_1 _ _ _ _ Hall Hi) as Hq.
  apply Forall_cons in Hq as [Hm Hq]. split; [done|].
  by apply Forall_insert.
Qed.

Lemma step_keeps_messages_ok l a l' :
  step l a = Some l' ->
  crashed l = None /\ Forall (Forall message_ok) (sending l) ->
  crashed l' = None /\ Forall (Forall message_ok) (sending l').
Proof.
  intros H [Hcr Hall]. destruct a; unfold step in H.
  - destruct (signals l); [|done..]. destruct (notified sig); [|done].
    by injection H as <-.
  - destruct (signals l); [done| |done]. by injection H as <-.
  - destruct (looping l && cancelled l); [|done]. by injection H as <-.
  - destruct (looping l); [|done].
    destruct (sending l !! i) as [[|[err|p] q]|] eqn:Hi; try done.
    injection H as <-. cbn. split; [done|].
    by eapply sending_tail_ok.
  - destruct (looping l && all_sent l); [|done]. by injection H as <-.
  - destruct (looping l); [|done].
    destruct (sending l !! i) as [[|[err|p] q]|] eqn:Hi; try done.
    destruct (sending_tail_ok _ _ _ _ Hall Hi) as [Hp Hq]. cbn in Hp.
    destruct (GoNet.IndexByte p NL) eqn:Hidx.
    + by injection H as <-.
    + by apply IndexByte_Some in Hp.
  - destruct (looping l && all_sent l); [|done]. by injection H as <-.
Qed.

(** X12: the loop never panics on what the goroutines send: every
    message on [out] starts with the label line of its host, so the
    search for the first newline (line 276) finds one. *)
Theorem loop_never_panics sys name hosts cmd certs st sched l' :
  steps (enter_loop sys name hosts cmd certs st) sched = Some l' ->
  crashed l' = None.
Proof.
  assert (Hinit : crashed (enter_loop sys name hosts cmd certs st) = None /\
                  Forall (Forall message_ok)
                    (sending (enter_loop sys name hosts cmd certs st))).
  { split; [done|]. cbn. apply Forall_forall. intros q Hq.
    apply list_elem_of_fmap in Hq as (h & -> & _).
    apply Forall_forall. intros [e|p] Hm; [done|]. cbn.
    by eapply task_out_newline. }
  revert Hinit. generalize (enter_loop sys name hosts cmd certs st).
  induction sched as [|a sched IH]; intros l Hinv H; cbn in H.
  - injection H as <-. apply Hinv.
  - destruct (step l a) as [l1|] eqn:Hstep; [|done].
    eapply IH; [|done]. by eapply step_keeps_messages_ok.
Qed.

Lemma loop_never_panics_witness :
  exists l',
    steps (enter_loop system_k1 "cl" [web_host] "uptime" ["k1" : gostring]
             (mkState web_text world0)) [SelectOut 0; SelectOutClosed] = Some l'
    /\ crashed l' = None.
Proof.
  destruct (steps (enter_loop system_k1 "cl" [web_host] "uptime"
                     ["k1" : gostring] (mkState web_text world0))
              [SelectOut 0; SelectOutClosed]) as [l'|] eqn:Hsteps;
    [|vm_compute in Hsteps; discriminate].
  exists l'. split; [reflexivity|].
  exact (loop_never_panics _ _ _ _ _ _ _ _ Hsteps).
Defined.

Lemma has_errs_all_sent l : all_sent l = true -> has_errs (sending l) = false.
Proof.
  unfold all_sent, has_errs. induction (sending l) as [|q qs IH]; [done|].
  cbn. intros [Hq Hqs]%andb_prop. apply bool_decide_eq_true in Hq as ->.
  by apply IH.
Qed.

Lemma has_errs_head (qs : list (list message)) i e q :
  qs !! i = Some (OnErrs e :: q) -> has_errs qs = true.
Proof.
  unfold has_errs. revert i.
  induction qs as [|q0 qs IH]; intros i Hi; [done|].
  destruct i as [|i]; cbn in Hi.
  - by injection Hi as ->.
  - cbn [existsb]. rewrite (IH i Hi). apply orb_true_r.
Qed.

Lemma has_errs_drop_out (qs : list (list message)) i p q :
  qs !! i = Some (OnOut p :: q) -> has_errs (<[i := q]> qs) = has_errs qs.
Proof.
  unfold has_errs. revert i.
  induction qs as [|q0 qs IH]; intros i Hi; [done|].
  destruct i as [|i]; cbn in Hi.
  - by injection Hi as ->.
  - cbn [insert list_insert existsb]. f_equal. exact (IH i Hi).
Qed.

Lemma has_errs_false_tail (qs : list (list message)) i m q :
  has_errs qs = false -> qs !! i = Some (m :: q) ->
  has_errs (<[i := q]> qs) = false.
Proof.
  unfold has_errs. revert i.
  induction qs as [|q0 qs IH]; intros i Hno Hi; [done|].
  cbn [existsb] in Hno. apply orb_false_elim in Hno as [H0 Hqs].
  destruct i as [|i]; cbn in Hi.
  - injection Hi as ->. cbn [insert list_insert existsb] in H0 |- *.
    apply orb_false_elim in H0 as [_ H0]. by rewrite H0, Hqs.
  - cbn [insert list_insert existsb]. rewrite H0. exact (IH i Hqs Hi).
Qed.

Lemma step_without_errors l a l' :
  is_signal a = false -> step l a = Some l' ->
  has_errs (sending l) = false /\ code l = 0%Z /\ signals l = Waiting ->
  has_errs (sending l') = false /\ code l' = 0%Z /\ signals l' = Waiting.
Proof.
  intros Ha H (Hno & Hcode & Hsig).
  destruct a; try discriminate Ha; unfold step in H; rewrite ?Hsig in H;
    try discriminate H.
  - destruct (looping l && cancelled l); [|done]. by injection H as <-.
  - destruct (looping l); [|done].
    destruct (sending l !! i) as [[|[err|p] q]|] eqn:Hi; try done.
    by rewrite (has_errs_head _ _ _ _ Hi) in Hno.
  - destruct (looping l && all_sent l); [|done]. by injection H as <-.
  - destruct (looping l); [|done].
    destruct (sending l !! i) as [[|[err|p] q]|] eqn:Hi; try done.
    destruct (GoNet.IndexByte p NL); injection H as <-;
      cbn [sending code signals errs_open out_open crashed term];
      by rewrite (has_errs_false_tail _ _ _ _ Hno Hi).
  - destruct (looping l && all_sent l); [|done]. by injection H as <-.
Qed.

Lemma step_with_errors l a l' :
  is_signal a = false -> step l a = Some l' ->
  signals l = Waiting /\
  (code l = 1%Z \/
   (has_errs (sending l) = true /\ errs_open l = true /\ out_open l = true)) ->
  signals l' = Waiting /\
  (code l' = 1%Z \/
   (has_errs (sending l') = true /\ errs_open l' = true /\ out_open l' = true)).
Proof.
  intros Ha H (Hsig & Hcases).
  destruct a; try discriminate Ha; unfold step in H; rewrite ?Hsig in H;
    try discriminate H.
  - unfold cancelled in H. rewrite Hsig, andb_false_r in H. done.
  - destruct (looping l); [|done].
    destruct (sending l !! i) as [[|[err|p] q]|] eqn:Hi; try done.
    injection H as <-.
    cbn [sending code signals errs_open out_open crashed term]. auto.
  - destruct (looping l && all_sent l) eqn:Hla; [|done].
    injection H as <-.
    cbn [sending code signals errs_open out_open crashed term]. split; [done|]. left.
    apply andb_prop in Hla as [_ Hall].
    destruct Hcases as [|(Herr & _)]; [done|].
    by rewrite (has_errs_all_sent _ Hall) in Herr.
  - destruct (looping l); [|done].
    destruct (sending l !! i) as [[|[err|p] q]|] eqn:Hi; try done.
    destruct (GoNet.IndexByte p NL); injection H as <-;
      cbn [sending code signals errs_open out_open crashed term];
      rewrite (has_errs_drop_out _ _ _ _ Hi); auto.
  - destruct (looping l && all_sent l) eqn:Hla; [|done].
    injection H as <-.
    cbn [sending code signals errs_open out_open crashed term]. split; [done|]. left.
    apply andb_prop in Hla as [_ Hall].
    destruct Hcases as [|(Herr & _)]; [done|].
    by rewrite (has_errs_all_sent _ Hall) in Herr.
Qed.

(** X13: when no signal arrives and the loop runs to its end, the exit
    status is 1 if some goroutine had an error to send, that is if some
    call of [run] failed for some host, also for a host that a later
    key served; it is 0 otherwise. *)
Theorem exit_status_without_signal l sched l' :
  signals l = Waiting -> code l = 0%Z ->
  errs_open l = true -> out_open l = true ->
  Forall (fun a => is_signal a = false) sched ->
  steps l sched = Some l' ->
  looping l' = false -> crashed l' = None ->
  exit_status l' = Some (if has_errs (sending l) then 1%Z else 0%Z).
Proof.
  intros Hsig Hcode He Ho Hno Hsteps Hend Hcr.
  unfold exit_status. rewrite Hcr, Hend. f_equal.
  destruct (has_errs (sending l)) eqn:Herrs.
  - assert (Hinv : signals l' = Waiting /\
              (code l' = 1%Z \/
               (has_errs (sending l') = true /\ errs_open l' = true
                /\ out_open l' = true))).
    { assert (Hinit : signals l = Waiting /\
                (code l = 1%Z \/
                 (has_errs (sending l) = true /\ errs_open l = true
                  /\ out_open l = true))) by auto.
      clear Hsig Hcode He Ho Herrs Hend Hcr. revert l Hinit Hsteps.
      induction Hno as [|a sched Ha Hno IH]; intros l Hinit Hsteps;
        cbn in Hsteps.
      - by injection Hsteps as <-.
      - destruct (step l a) as [l1|] eqn:Hstep; [|done].
        eapply IH; [|done]. by eapply step_with_errors. }
    destruct Hinv as (_ & [Hone|(_ & He' & Ho')]); [done|].
    unfold looping in Hend. rewrite He', Ho', Hcr in Hend. done.
  - assert (Hinv : has_errs (sending l') = false /\ code l' = 0%Z
                   /\ signals l' = Waiting).
    { assert (Hinit : has_errs (sending l) = false /\ code l = 0%Z
                      /\ signals l = Waiting) by auto.
      clear Hsig Hcode He Ho Herrs Hend Hcr. revert l Hinit Hsteps.
      induction Hno as [|a sched Ha Hno IH]; intros l Hinit Hsteps;
        cbn in Hsteps.
      - by injection Hsteps as <-.
      - destruct (step l a) as [l1|] eqn:Hstep; [|done].
        eapply IH; [|done]. by eapply step_without_errors. }
    by destruct Hinv as (_ & Hzero & _).
Qed.

Lemma exit_status_without_signal_witness :
  steps loop_second_key [SelectErrs 0; SelectOut 0; SelectErrsClosed]
    ≫= exit_status = Some 1%Z.
Proof.
  destruct (steps loop_second_key [SelectErrs 0; SelectOut 0; SelectErrsClosed])
    as [l'|] eqn:Hsteps; [|vm_compute in Hsteps; discriminate].
  cbn [mbind option_bind].
  refine (eq_trans (exit_status_without_signal loop_second_key
            [SelectErrs 0; SelectOut 0; SelectErrsClosed] l'
            eq_refl eq_refl eq_refl eq_refl _ Hsteps _ _) _).
  - repeat constructor.
  - vm_compute in Hsteps. injection Hsteps as <-. reflexivity.
  - vm_compute in Hsteps. injection Hsteps as <-. reflexivity.
  - reflexivity.
Defined.

Lemma notified_code sig :
  notified sig = true -> failure_code (default 0%Z (codes !! sig)).
Proof.
  unfold notified, failure_code.
  intros [->%bool_decide_eq_true| ->%bool_decide_eq_true]%orb_prop;
    vm_compute; auto.
Qed.

Lemma step_failure_code l a l' :
  step l a = Some l' -> signal_ok l ->
  signal_ok l' /\
  (failure_code (code l) \/ receives_error a = true -> failure_code (code l')).
Proof.
  unfold signal_ok. intros H Hok. destruct a; unfold step in H.
  - destruct (signals l); [|done..]. destruct (notified sig) eqn:Hn; [|done].
    injection H as <-. cbn. split; [done|]. by intros [|].
  - destruct (signals l); [done| |done]. injection H as <-. cbn.
    split; [done|]. intros _. by apply notified_code.
  - destruct (looping l && cancelled l); [|done]. injection H as <-. cbn.
    split; [done|]. by intros [|].
  - destruct (looping l); [|done].
    destruct (sending l !! i) as [[|[err|p] q]|]; try done.
    injection H as <-. cbn. split; [done|]. intros _. by left.
  - destruct (looping l && all_sent l); [|done]. injection H as <-. cbn.
    split; [done|]. by intros [|].
  - destruct (looping l); [|done].
    destruct (sending l !! i) as [[|[err|p] q]|]; try done.
    destruct (GoNet.IndexByte p NL); injection H as <-; cbn;
      (split; [done|]; by intros [|]).
  - destruct (looping l && all_sent l); [|done]. injection H as <-. cbn.
    split; [done|]. by intros [|].
Qed.

(** X14: once an error of a goroutine has been received, the exit code
    is never 0 again: it is 1, or the code of the signal when the
    handler stores it afterwards. *)
Theorem received_error_is_not_masked l sched l' :
  signals l = Waiting ->
  steps l sched = Some l' ->
  Exists (fun a => receives_error a = true) sched ->
  failure_code (code l').
Proof.
  intros Hsig Hsteps Hex.
  assert (Hok : signal_ok l) by (unfold signal_ok; by rewrite Hsig).
  assert (Hgen : forall l, signal_ok l -> steps l sched = Some l' ->
            failure_code (code l) \/ Exists (fun a => receives_error a = true) sched ->
            failure_code (code l')).
  { clear. induction sched as [|a sched IH]; intros l Hok Hsteps Hor;
      cbn in Hsteps.
    - injection Hsteps as <-. destruct Hor as [|Hex]; [done|].
      by apply Exists_nil in Hex.
    - destruct (step l a) as [l1|] eqn:Hstep; [|done].
      destruct (step_failure_code _ _ _ Hstep Hok) as [Hok1 Hcode].
      apply (IH l1 Hok1 Hsteps).
      destruct Hor as [Hf|Hex]; [by auto|].
      apply Exists_cons in Hex as [Ha|Hex]; [by auto|by right]. }
  apply (Hgen l Hok Hsteps). by right.
Qed.

Lemma received_error_is_not_masked_witness :
  code <$> steps loop_one_refused [Signal SIGINT; SelectErrs 0; StoreCode; SelectDone]
  = Some 130%Z /\ failure_code 130.
Proof.
  destruct (steps loop_one_refused
              [Signal SIGINT; SelectErrs 0; StoreCode; SelectDone])
    as [l'|] eqn:Hsteps; [|vm_compute in Hsteps; discriminate].
  pose proof (received_error_is_not_masked loop_one_refused
                [Signal SIGINT; SelectErrs 0; StoreCode; SelectDone] l'
                eq_refl Hsteps) as Hcode.
  assert (Hc : code l' = 130%Z)
    by (vm_compute in Hsteps; by injection Hsteps as <-).
  rewrite Hc in Hcode. split; [by rewrite <- Hc|].
  apply Hcode. apply Exists_cons_tl, Exists_cons_hd. reflexivity.
Defined.

(** X15: after the loop has ended nothing is received or printed any
    more: what the goroutines still want to send stays unsent, and only
    the signal handler can still change the exit code. *)
Theorem nothing_after_the_loop l sched l' :
  looping l = false ->
  steps l sched = Some l' ->
  looping l' = false /\ sending l' = sending l /\ term l' = term l /\
  Forall (fun a => is_signal a = true \/ a = StoreCode) sched.
Proof.
  revert l. induction sched as [|a sched IH]; intros l Hend Hsteps;
    cbn in Hsteps.
  { injection Hsteps as <-. by repeat split. }
  destruct (step l a) as [l1|] eqn:Hstep; [|done].
  assert (H1 : looping l1 = false /\ sending l1 = sending l /\ term l1 = term l
               /\ (is_signal a = true \/ a = StoreCode)).
  { destruct (step_needs_loop _ _ _ Hstep Hend) as [[sig ->]| ->];
      unfold step in Hstep.
    - destruct (signals l); [|done..]. destruct (notified sig); [|done].
      injection Hstep as <-. cbn. repeat split; auto.
    - destruct (signals l); [done| |done].
      injection Hstep as <-. cbn. repeat split; auto. }
  destruct H1 as (Hend1 & Hs1 & Ht1 & Ha).
  destruct (IH l1 Hend1 Hsteps) as (Hend' & Hs' & Ht' & Hall).
  split; [done|]. split; [congruence|]. split; [congruence|].
  by constructor.
Qed.

Lemma nothing_after_the_loop_witness :
  (fun l' => (length <$> sending l', stderr (term l')))
    <$> steps loop_one_refused [Signal SIGINT; SelectDone; StoreCode]
  = Some ([1], "cl: context canceled" ++ [NL]).
Proof.
  destruct (steps loop_one_refused [Signal SIGINT; SelectDone]) as [l|] eqn:Hl;
    [|vm_compute in Hl; discriminate].
  destruct (steps l [StoreCode]) as [l'|] eqn:Hl'.
  - destruct (nothing_after_the_loop l [StoreCode] l') as (_ & Hs & Ht & _).
    + vm_compute in Hl. injection Hl as <-. reflexivity.
    + exact Hl'.
    + replace (steps loop_one_refused [Signal SIGINT; SelectDone; StoreCode])
        with (Some l').
      * cbn [fmap option_fmap option_map]. rewrite Hs, Ht.
        vm_compute in Hl. injection Hl as <-. reflexivity.
      * change (steps loop_one_refused [Signal SIGINT; SelectDone; StoreCode])
          with (match steps loop_one_refused [Signal SIGINT; SelectDone] with
                | Some l0 => steps l0 [StoreCode]
                | None => None
                end) .
        by rewrite Hl.
  - vm_compute in Hl. injection Hl as <-. vm_compute in Hl'. discriminate.
Defined.

Lemma IndexByte_first (x rest : gostring) (c : ascii) :
  c ∉ x -> GoNet.IndexByte (x ++ c :: rest) c = Some (length x).
Proof.
  induction x as [|y x IH]; intros Hc.
  - cbn. by rewrite bool_decide_true.
  - apply not_elem_of_cons in Hc as [Hy Hx]. cbn.
    rewrite bool_decide_false by done. by rewrite IH.
Qed.

Lemma indent_lines_tail (acc tail : gostring) :
  NL ∉ tail -> indent_lines acc tail = [].
Proof.
  revert acc. induction tail as [|c tail IH]; intros acc Hnl; [done|].
  apply not_elem_of_cons in Hnl as [Hc Htail]. cbn.
  rewrite bool_decide_false by done. by apply IH.
Qed.

Lemma indent_lines_line (acc l rest : gostring) :
  NL ∉ l ->
  indent_lines acc (l ++ NL :: rest)
  = "  " ++ rev acc ++ l ++ [NL] ++ indent_lines [] rest.
Proof.
  revert acc. induction l as [|c l IH]; intros acc Hnl.
  - cbn. rewrite bool_decide_true by done. cbn.
    by rewrite <- app_assoc.
  - apply not_elem_of_cons in Hnl as [Hc Hl]. cbn [app indent_lines].
    rewrite bool_decide_false by done. rewrite IH by done.
    cbn [rev]. by rewrite <- !app_assoc.
Qed.

Lemma indent_lines_unlines (ls : list gostring) (tail : gostring) :
  Forall (fun l => NL ∉ l) ls -> NL ∉ tail ->
  indent_lines [] (unlines ls ++ tail) = indented ls.
Proof.
  intros Hls Htail. induction Hls as [|l ls Hl Hls IH].
  - cbn. by apply indent_lines_tail.
  - unfold unlines, indented. cbn [map concat].
    fold (unlines ls). fold (indented ls).
    rewrite <- !app_assoc. cbn [app].
    rewrite indent_lines_line by done. cbn [rev app]. by rewrite IH.
Qed.

(** X16: a message of a host made of its label line and of the output
    is printed in this way: the label goes to the standard error
    without its newline; the standard output gets a line of two spaces
    and then every line of the output after two spaces; what the output
    has after its last newline is not printed; the exit code is not
    touched. *)
Theorem select_out_prints l i a ls tail q :
  looping l = true ->
  sending l !! i
    = Some (OnOut ("Host: " ++ a ++ [NL] ++ unlines ls ++ tail) :: q) ->
  NL ∉ a -> Forall (fun x => NL ∉ x) ls -> NL ∉ tail ->
  exists l',
    step l (SelectOut i) = Some l' /\
    stderr (term l') = stderr (term l) ++ "Host: " ++ a /\
    stdout (term l') = stdout (term l) ++ "  " ++ [NL] ++ indented ls /\
    code l' = code l /\ crashed l' = crashed l.
Proof.
  intros Hloop Hi Ha Hls Htail. unfold step. rewrite Hloop, Hi.
  assert (Hlabel : NL ∉ ("Host: " : gostring) ++ a).
  { rewrite not_elem_of_app. split; [|done].
    intros H%list_elem_of_In. cbn in H. intuition discriminate. }
  replace ("Host: " ++ a ++ [NL] ++ unlines ls ++ tail)
    with ((("Host: " : gostring) ++ a) ++ NL :: unlines ls ++ tail)
    by (by rewrite <- app_assoc).
  rewrite IndexByte_first by done.
  eexists. split; [reflexivity|]. cbn [term code crashed stderr stdout
                                      to_stdout to_stderr].
  rewrite take_app_length, drop_app_length.
  split; [done|]. split; [|done].
  change (NL :: unlines ls ++ tail) with ([] ++ NL :: unlines ls ++ tail).
  rewrite indent_lines_line by apply not_elem_of_nil.
  cbn [rev app]. by rewrite indent_lines_unlines.
Qed.

Lemma select_out_prints_witness :
  exists l',
    step loop_two_lines (SelectOut 0) = Some l' /\
    stderr (term l') = "Host: 10.0.0.1:22" /\
    stdout (term l') = "  " ++ [NL] ++ "  one" ++ [NL] ++ "  two" ++ [NL].
Proof.
  destruct (select_out_prints loop_two_lines 0 "10.0.0.1:22"
              ["one" : gostring; "two" : gostring] "three" [])
    as (l' & Hstep & Herr & Hout & _).
  - reflexivity.
  - vm_compute. reflexivity.
  - intros H%list_elem_of_In. cbn in H. intuition discriminate.
  - repeat constructor; intros H%list_elem_of_In; cbn in H;
      intuition discriminate.
  - intros H%list_elem_of_In. cbn in H. intuition discriminate.
  - exists l'. split; [exact Hstep|]. split; [exact Herr | exact Hout].
Defined.

(** ** Retiring a host, further *)




Lemma log_hosts_rewrites sys text w :
  hosts_rewrites (log sys text w) = hosts_rewrites w.
Proof.
  unfold log. destruct (append_succ sys); [done|].
  destruct (write_succ sys) as [[n e]|]; [done|].
  by destruct (close_succ sys).
Qed.



Lemma retire_stored_lines_witness :
  retire web_host (unlines stored_inventory)
  = unlines ["web:" : gostring; "bob@10.0.0.2:22 /home/alice/.ssh/k1" : gostring].
Proof.
  refine (eq_trans (retire_stored_lines web_host stored_inventory _ _) _).
  - vm_compute. intros H%list_elem_of_In. cbn in H. intuition discriminate.
  - unfold stored_inventory.
    apply Forall_cons_2; [right; vm_compute; reflexivity|].
    apply Forall_cons_2; [left; vm_compute; reflexivity|].
    apply Forall_cons_2; [right; vm_compute; reflexivity|].
    apply Forall_nil_2.
  - vm_compute. reflexivity.
Defined.

(** ** The start of [main], further *)

(** X18: whatever its outcome, the start of [main] neither rewrites
    hosts nor appends to succ.txt; and when it starts goroutines, there
    are at least three arguments, the cluster has at least one host,
    the command is the arguments after the cluster name joined by one
    space, and the goroutines start from what has been printed so
    far. *)
Theorem startup_writes_no_file sys args w :
  let r := startup sys args w in
  hosts_rewrites (snd r) = hosts_rewrites w /\
  succ_appended (snd r) = succ_appended w /\
  forall hosts cmd certs st,
    fst r = Spawned hosts cmd certs st ->
    3 <= length args /\
    (exists h rest, hosts = h :: rest) /\
    cmd = GoStrings.Join (drop 2 args) " " /\
    certs = fst (readCerts sys w) /\
    outside st = snd r.
Proof.
  cbn zeta. unfold startup.
  destruct (index args 0) as [prog|]; [|by repeat split].
  case_bool_decide as Hlen; [by repeat split|].
  assert (Hcerts : hosts_rewrites (snd (readCerts sys w)) = hosts_rewrites w /\
                   succ_appended (snd (readCerts sys w)) = succ_appended w).
  { unfold readCerts. by destruct (certs_in sys). }
  destruct (hosts_in sys) as [data|e].
  2:{ destruct (hosts_opens sys); [|by repeat split].
      destruct (readCerts sys w) as [certs w1]. cbn in *.
      destruct Hcerts as [Hh Hs]. by repeat split. }
  destruct (readCerts sys w) as [certs w1]. cbn [fst snd] in *.
  destruct Hcerts as [Hh Hs].
  destruct (unmarshal (env sys) data) as [cluster|] eqn:Hm; [|by repeat split].
  destruct (cluster !! default [] (args !! 1)) as [hosts|] eqn:Hc;
    [|by repeat split].
  cbn [fst snd]. split; [done|]. split; [done|].
  intros hosts' cmd certs' st [= <- <- <- <-].
  split; [lia|]. split; [|done].
  destruct hosts as [|h rest]; [|by eauto].
  exfalso. eapply (unmarshal_loop_entries _ _ ∅ [] cluster Hm); [|exact Hc|done].
  intros c' hs'. by rewrite lookup_empty.
Qed.

(** X19: the start of [main] ends the process in one of four ways.
    Three of them leave with status 1 after one line on the standard
    error: the usage (fewer than three arguments), the error of opening
    hosts, the unknown cluster.  The fourth is the error of reading the
    opened file hosts (lines 177-180): [readCerts] has run, the line
    [read err:] with the error goes to the standard output, nothing goes
    to the standard error, and the process leaves with [os.Exit(-1)]. *)
Theorem startup_exit_codes sys args w code :
  fst (startup sys args w) = Exit code ->
  exists prog,
    args !! 0 = Some prog /\
    ((code = 1%Z /\
      exists line,
        stderr (snd (startup sys args w)) = stderr w ++ line ++ [NL] /\
        (line = "usage: cl [cluster] [commands...]" /\ length args < 3 \/
         (exists e, hosts_in sys = Err e /\ hosts_opens sys = false /\
                    line = prog ++ ": " ++ e) \/
         line = prog ++ ": unknown cluster")) \/
     (code = (-1)%Z /\ 3 <= length args /\
      exists e,
        hosts_in sys = Err e /\ hosts_opens sys = true /\
        stderr (snd (startup sys args w)) = stderr w /\
        stdout (snd (startup sys args w))
        = stdout (snd (readCerts sys w)) ++ "read err: " ++ e ++ [NL])).
Proof.
  unfold startup, index.
  destruct (args !! 0) as [prog|] eqn:Hprog; [|done].
  case_bool_decide as Hlen.
  { intros [= <-]. exists prog. split; [done|]. left. split; [done|].
    exists "usage: cl [cluster] [commands...]".
    cbn. split; [done|]. by left. }
  destruct (readCerts sys w) as [certs w1] eqn:Hcerts.
  assert (Herr : stderr w1 = stderr w).
  { unfold readCerts in Hcerts. destruct (certs_in sys);
      injection Hcerts as <- <-; done. }
  destruct (hosts_in sys) as [data|e] eqn:Hin.
  2:{ destruct (hosts_opens sys) eqn:Hopen.
      - intros [= <-]. exists prog. split; [done|]. right.
        split; [done|]. split; [lia|]. exists e. cbn.
        by rewrite Herr.
      - intros [= <-]. exists prog. split; [done|]. left. split; [done|].
        exists (prog ++ ": " ++ e).
        cbn. split; [by rewrite <- !app_assoc|].
        right. left. by exists e. }
  destruct (unmarshal (env sys) data) as [cluster|]; [|done].
  destruct (cluster !! default [] (args !! 1)); [done|].
  intros [= <-]. exists prog. split; [done|]. left. split; [done|].
  exists (prog ++ ": unknown cluster").
  cbn. rewrite Herr. split; [by rewrite <- !app_assoc|].
  by right; right.
Qed.

(** The file hosts is a directory: it opens, and reading it fails. *)
Lemma startup_exit_codes_witness :
  let args := ["cl" : gostring; "web" : gostring; "uptime" : gostring] in
  let r := startup system_hosts_is_directory args world0 in
  fst r = Exit (-1) /\
  exists e,
    hosts_in system_hosts_is_directory = Err e /\
    hosts_opens system_hosts_is_directory = true /\
    stderr (snd r) = stderr world0 /\
    stdout (snd r)
    = stdout (snd (readCerts system_hosts_is_directory world0))
      ++ "read err: " ++ e ++ [NL].
Proof.
  intros args r. split; [vm_compute; reflexivity|].
  destruct (startup_exit_codes system_hosts_is_directory args world0 (-1)
              eq_refl) as (prog & _ & [[H _]|(_ & _ & He)]).
  - discriminate H.
  - exact He.
Defined.

(** X20: one host line with an empty part after its first space, among
    the lines that the scanner of [unmarshal] hands out, makes [main]
    panic before any goroutine is started, whatever cluster is named on
    the command line. *)
Theorem startup_panics_on_empty_key sys data text prog name arg more w :
  hosts_in sys = Ok data ->
  text ∈ GoBufio.Scan data ->
  empty_key_token text ->
  fst (startup sys (prog :: name :: arg :: more) w) = Crashed IndexOutOfRange.
Proof.
  intros Hin Htext Hkey. unfold startup. cbn [index lookup list_lookup].
  rewrite bool_decide_false by (cbn; lia).
  rewrite Hin. destruct (readCerts sys w) as [certs w1].
  by rewrite (unmarshal_empty_key _ _ _ Htext Hkey).
Qed.

Lemma startup_panics_on_empty_key_witness :
  fst (startup (system_of two_spaces_text (Ok [("k1" : gostring, false)])
                  (remote_accepting [] [] CmdDone))
         ["cl" : gostring; "web" : gostring; "uptime" : gostring] world0)
  = Crashed IndexOutOfRange.
Proof.
  apply (startup_panics_on_empty_key _ two_spaces_text "bob@10.0.0.2  ~/.ssh/k2").
  - reflexivity.
  - replace (GoBufio.Scan two_spaces_text)
      with ["web:" : gostring; "alice@10.0.0.1" : gostring; "db:" : gostring;
            "bob@10.0.0.2  ~/.ssh/k2" : gostring]
      by (vm_compute; reflexivity).
    do 3 right. left.
  - split; vm_compute; reflexivity.
Defined.

(** ** Reading the file hosts *)

Lemma dropCR_rev_drops (l : gostring) :
  GoBufio.dropCR_rev (rev (l ++ [CR])) = l.
Proof.
  rewrite rev_app_distr. cbn. rewrite bool_decide_true by done.
  apply rev_involutive.
Qed.

(** X21: a carriage return before a newline is dropped, by the reader of
    [main] and by the scanner of [unmarshal] alike: of a file with such
    line ends [saveHosts] keeps the lines with plain newlines, which is
    what a later rewrite puts into hosts. *)
Theorem carriage_returns_are_dropped (ls : list gostring) :
  Forall (fun l => (NL ∉ l) /\
                   (Z.of_nat (length l) + 1 < GoBufio.defaultBufSize)%Z) ls ->
  GoBufio.ReadLines (crlf_lines ls) = ls /\
  GoBufio.Scan (crlf_lines ls) = ls /\
  unlines (GoBufio.ReadLines (crlf_lines ls)) = unlines ls.
Proof.
  intros Hall.
  assert (Hcr : forall l : gostring, NL ∉ l -> NL ∉ l ++ [CR]).
  { intros l Hl. rewrite not_elem_of_app. split; [done|].
    intros H%list_elem_of_In. cbn in H. intuition discriminate. }
  assert (Hread : GoBufio.ReadLines (crlf_lines ls) = ls).
  { unfold GoBufio.ReadLines.
    induction Hall as [|l ls (Hnl & Hlen) Hall IH]; [done|].
    unfold crlf_lines. cbn [map concat]. fold (crlf_lines ls).
    replace ((l ++ [CR; NL]) ++ crlf_lines ls)
      with ((l ++ [CR]) ++ NL :: crlf_lines ls)
      by (by rewrite <- !app_assoc).
    rewrite read_from_line; [|by apply Hcr|rewrite length_app; cbn; lia].
    by rewrite app_nil_r, dropCR_rev_drops, IH. }
  split; [done|]. split; [|by rewrite Hread].
  clear Hread. unfold GoBufio.Scan.
  induction Hall as [|l ls (Hnl & Hlen) Hall IH]; [done|].
  unfold crlf_lines. cbn [map concat]. fold (crlf_lines ls).
  replace ((l ++ [CR; NL]) ++ crlf_lines ls)
    with ((l ++ [CR]) ++ NL :: crlf_lines ls)
    by (by rewrite <- !app_assoc).
  rewrite scan_from_line.
  - by rewrite app_nil_r, dropCR_rev_drops, IH.
  - by apply Hcr.
  - rewrite length_app. cbn. unfold GoBufio.MaxScanTokenSize.
    unfold GoBufio.defaultBufSize in Hlen. lia.
Qed.

Lemma carriage_returns_are_dropped_witness :
  unlines (GoBufio.ReadLines
             (crlf_lines ["web:" : gostring; "alice@10.0.0.1" : gostring]))
  = unlines ["web:" : gostring; "alice@10.0.0.1" : gostring].
Proof.
  apply carriage_returns_are_dropped.
  apply Forall_cons_2; [|apply Forall_cons_2; [|apply Forall_nil_2]];
    (split; [intros H%list_elem_of_In; cbn in H; intuition discriminate
            |vm_compute; reflexivity]).
Defined.

Lemma read_from_fill (acc a rest : gostring) (n : Z) :
  NL ∉ a -> (n + Z.of_nat (length a) < GoBufio.defaultBufSize)%Z ->
  GoBufio.read_from acc n (a ++ rest)
  = GoBufio.read_from (rev a ++ acc) (n + Z.of_nat (length a)) rest.
Proof.
  revert acc n. induction a as [|c a IH]; intros acc n Hnl Hlen.
  - cbn. by rewrite Z.add_0_r.
  - apply not_elem_of_cons in Hnl as [Hc Ha].
    cbn [app GoBufio.read_from]. rewrite bool_decide_false by done.
    cbn [length] in Hlen.
    replace (n + 1 <? GoBufio.defaultBufSize)%Z with true
      by (symmetry; apply Z.ltb_lt; lia).
    rewrite IH by (done || lia). cbn [rev length].
    rewrite <- app_assoc. f_equal. lia.
Qed.

(** X22: a last line without a newline is kept, and gets one in
    [saveHosts]: the retained text is then one byte longer than the
    file. *)
Theorem last_line_gets_a_newline (ls : list gostring) (l : gostring) :
  Forall (fun x => (NL ∉ x) /\ last x <> Some CR /\
                   (Z.of_nat (length x) < GoBufio.defaultBufSize)%Z) ls ->
  l <> [] -> NL ∉ l -> (Z.of_nat (length l) < GoBufio.defaultBufSize)%Z ->
  GoBufio.ReadLines (unlines ls ++ l) = ls ++ [l] /\
  unlines (GoBufio.ReadLines (unlines ls ++ l)) = (unlines ls ++ l) ++ [NL].
Proof.
  intros Hall Hne Hnl Hlen.
  assert (Hread : GoBufio.ReadLines (unlines ls ++ l) = ls ++ [l]).
  { unfold GoBufio.ReadLines.
    induction Hall as [|x ls (Hx & Hcr & Hxlen) Hall IH].
    - cbn [unlines map concat app].
      rewrite <- (app_nil_r l) at 1. rewrite read_from_fill by (done || lia).
      cbn. rewrite app_nil_r.
      destruct (rev l) eqn:Hrev.
      + apply (f_equal (@rev ascii)) in Hrev.
        rewrite rev_involutive in Hrev. done.
      + by rewrite <- Hrev, rev_involutive.
    - unfold unlines. cbn [map concat]. fold (unlines ls).
      rewrite <- !app_assoc. cbn [app].
      rewrite read_from_line by (done || lia).
      by rewrite app_nil_r, dropCR_rev_plain, IH. }
  split; [done|]. rewrite Hread. unfold unlines.
  rewrite map_app, concat_app. cbn. by rewrite app_nil_r, <- app_assoc.
Qed.

Lemma last_line_gets_a_newline_witness :
  unlines (GoBufio.ReadLines (unlines ["web:" : gostring] ++ "alice@10.0.0.1"))
  = (unlines ["web:" : gostring] ++ "alice@10.0.0.1") ++ [NL].
Proof.
  apply last_line_gets_a_newline.
  - apply Forall_cons_2; [|apply Forall_nil_2].
    split; [intros H%list_elem_of_In; cbn in H; intuition discriminate|].
    split; [vm_compute; discriminate | vm_compute; reflexivity].
  - discriminate.
  - intros H%list_elem_of_In. cbn in H. intuition discriminate.
  - vm_compute. reflexivity.
Defined.

(** X23: [main] does not look at [isPrefix]: a line of the file hosts
    that has as many bytes as the buffer of the reader, or more, is
    handed out in pieces, and [saveHosts] gets a newline after the
    first 4096 bytes of it. *)
Theorem long_line_is_cut (a : gostring) (c : ascii) (b : gostring) :
  NL ∉ a -> Z.of_nat (length a) = (GoBufio.defaultBufSize - 1)%Z ->
  c <> NL -> c <> CR ->
  NL ∉ b -> last b <> Some CR ->
  (Z.of_nat (length b) < GoBufio.defaultBufSize)%Z ->
  GoBufio.ReadLines ((a ++ [c]) ++ b ++ [NL]) = [a ++ [c]; b] /\
  unlines (GoBufio.ReadLines ((a ++ [c]) ++ b ++ [NL]))
  = (a ++ [c]) ++ [NL] ++ b ++ [NL].
Proof.
  intros Ha Hlen Hc1 Hc2 Hb Hcr Hblen.
  assert (Hread : GoBufio.ReadLines ((a ++ [c]) ++ b ++ [NL]) = [a ++ [c]; b]).
  { unfold GoBufio.ReadLines. rewrite <- !app_assoc.
    rewrite read_from_fill by (done || lia).
    cbn [app GoBufio.read_from]. rewrite bool_decide_false by done.
    replace (0 + Z.of_nat (length a) + 1 <? GoBufio.defaultBufSize)%Z
      with false by (symmetry; apply Z.ltb_ge; lia).
    rewrite bool_decide_false by done.
    rewrite app_nil_r. cbn [rev]. rewrite rev_involutive. f_equal.
    rewrite read_from_line by (done || lia).
    by rewrite app_nil_r, dropCR_rev_plain. }
  split; [done|]. rewrite Hread. unfold unlines. cbn.
  by rewrite app_nil_r, <- !app_assoc.
Qed.

Lemma long_line_is_cut_witness :
  GoBufio.ReadLines ((repeat "x"%char 4095 ++ ["y"%char]) ++ "tail" ++ [NL])
  = [repeat "x"%char 4095 ++ ["y"%char]; "tail" : gostring].
Proof.
  apply long_line_is_cut.
  - intros H%list_elem_of_In. apply repeat_spec in H. discriminate H.
  - rewrite repeat_length. reflexivity.
  - discriminate.
  - discriminate.
  - intros H%list_elem_of_In. cbn in H. intuition discriminate.
  - vm_compute. discriminate.
  - vm_compute. reflexivity.
Defined.

(** ** [log] and the line for succ.txt *)

(** X24: a failure of [log] is printed and has no other effect.  When a
    key works and the file hosts can be opened for writing, the
    goroutine rewrites hosts and sends the success on [out] whether or
    not succ.txt can be opened, written and closed ([log] returns
    nothing to line 223).  What succ.txt held stays; the line and its
    newline are added when the open and the write succeed, also when
    the close fails afterwards; when the write fails, the bytes written
    before the error are added; when the open fails, nothing is.  Each
    of the three errors is printed on a line of the standard output,
    and the standard error is not touched. *)
Theorem log_failure_is_only_printed sys h cmd before cert rest st :
  (forall c, c ∈ before -> run_error sys h cmd c <> None) ->
  run_error sys h cmd cert = None ->
  create_hosts sys = None ->
  let r := task sys h cmd (before ++ cert :: rest) st in
  let line := audit_line sys h cmd cert ++ [NL] in
  successes (snd r)
  = ["Host: " ++ addr h ++ [NL] ++ run_output sys h cmd cert] /\
  hosts_rewrites (outside (fst r))
  = retire h (saveHosts st) :: hosts_rewrites (outside st) /\
  stderr (outside (fst r)) = stderr (outside st) /\
  exists added printed,
    succ_appended (outside (fst r)) = succ_appended (outside st) ++ added /\
    stdout (outside (fst r)) = stdout (outside st) ++ printed /\
    match append_succ sys, write_succ sys, close_succ sys with
    | Some e, _, _ => added = [] /\ printed = e ++ [NL]
    | None, Some (n, e), _ => added = take n line /\ printed = e ++ [NL]
    | None, None, Some e => added = line /\ printed = e ++ [NL]
    | None, None, None => added = line /\ printed = []
    end.
Proof.
  intros Hbefore Hok Hcreate r line. subst r line.
  rewrite task_failing_prefix by done. cbn [fst snd].
  rewrite task_worked_events, task_worked_state by done.
  rewrite Hcreate. cbn [outside].
  split.
  { unfold successes. rewrite omap_app.
    fold (successes (before ≫= failed_attempt sys h cmd)).
    by rewrite successes_failed_attempts. }
  split; [by rewrite log_hosts_rewrites|].
  unfold log.
  destruct (append_succ sys) as [e|].
  { split; [done|]. exists [], (e ++ [NL]). cbn. by rewrite app_nil_r. }
  destruct (write_succ sys) as [[n e]|].
  { split; [done|]. by exists (take n (audit_line sys h cmd cert ++ [NL])),
                              (e ++ [NL]). }
  destruct (close_succ sys) as [e|].
  { split; [done|]. by exists (audit_line sys h cmd cert ++ [NL]), (e ++ [NL]). }
  split; [done|]. exists (audit_line sys h cmd cert ++ [NL]), [].
  cbn. by rewrite app_nil_r.
Qed.

(** The disk is full: succ.txt opens, and the write stops after 9
    bytes.  The success is sent all the same. *)
Lemma log_failure_is_only_printed_witness :
  let r := task system_disk_full web_host "echo hi" ["k1" : gostring]
             (mkState web_text world0) in
  successes (snd r) = [("Host: 10.0.0.1:22" ++ [NL] ++ "hi" ++ [NL]) : gostring] /\
  succ_appended (outside (fst r)) = ("alice@10." : gostring) /\
  stdout (outside (fst r))
  = "write succ.txt: no space left on device" ++ [NL].
Proof.
  destruct (log_failure_is_only_printed system_disk_full web_host "echo hi"
              [] "k1" [] (mkState web_text world0))
    as (Hs & _ & _ & added & printed & Ha & Hp & -> & ->).
  - intros c Hc. by apply elem_of_nil in Hc.
  - vm_compute. reflexivity.
  - reflexivity.
  - split; [exact Hs|]. split; [exact Ha | exact Hp].
Defined.

Lemma replace_newlines (s : gostring) (n : Z) :
  (n < 0)%Z -> NL ∉ GoStrings.replace_from [NL] [] n 0 s.
Proof.
  revert n. induction s as [|c s IH]; intros n Hn; [apply not_elem_of_nil|].
  cbn [GoStrings.replace_from].
  replace (n =? 0)%Z with false by (symmetry; apply Z.eqb_neq; lia).
  cbn [negb andb]. rewrite HasPrefix_byte. cbn [lookup list_lookup].
  case_bool_decide as Hc.
  - cbn. apply IH. lia.
  - apply not_elem_of_cons. split; [|by apply IH].
    intros <-. by apply Hc.
Qed.

(** X25: the line that a success adds to succ.txt is one line whatever
    the command has printed: the newlines of the output are taken out,
    so that the only newline is the one that ends the line (for a user,
    an address and a key name without newline). *)
Theorem audit_line_is_one_line sys h cmd cert :
  NL ∉ user h -> NL ∉ addr h -> NL ∉ cert ->
  NL ∉ audit_line sys h cmd cert.
Proof.
  intros Hu Ha Hc. unfold audit_line.
  rewrite !not_elem_of_app.
  repeat split; try done;
    try (intros H%list_elem_of_In; cbn in H; intuition discriminate).
  unfold GoStrings.Replace. by apply replace_newlines.
Qed.

Lemma audit_line_is_one_line_witness :
  audit_line loop_two_lines_system web_host "cat f" "k1"
  = "alice@10.0.0.1:22 k1 onetwothree" /\
  NL ∉ audit_line loop_two_lines_system web_host "cat f" "k1".
Proof.
  split; [vm_compute; reflexivity|].
  apply audit_line_is_one_line;
    intros H%list_elem_of_In; cbn in H; intuition discriminate.
Defined.

Lemma ReadLines_unlines_witness :
  unlines (GoBufio.ReadLines web_text) = web_text.
Proof.
  apply (ReadLines_unlines ["web:" : gostring; "alice@10.0.0.1 ~/.ssh/k1" : gostring]).
  apply Forall_cons_2; [|apply Forall_cons_2; [|apply Forall_nil_2]];
    (split; [intros H%list_elem_of_In; cbn in H; intuition discriminate|];
     split; [vm_compute; discriminate | vm_compute; reflexivity]).
Defined.

(** ** The keys that are tried *)

Lemma attempts_prefix sys h cmd certs st :
  exists k, attempts (snd (task sys h cmd certs st)) = take k certs.
Proof.
  induction certs as [|c rest IH]; [by exists 0|].
  destruct (run_error sys h cmd c) as [e|] eqn:He.
  - rewrite (task_failed _ _ _ _ _ _ e) by done. cbn [snd].
    rewrite attempts_cons, attempts_errs.
    destruct IH as [k Hk]. exists (S k). cbn. by rewrite Hk.
  - rewrite task_worked_events by done. exists 1.
    by destruct (create_hosts sys).
Qed.

(** X29: the keys that a goroutine tries are the first names of the
    listing of the directory certs, in the order of the listing, with
    the directories left out: no goroutine calls [run] with a directory
    or with a name that is not in certs. *)
Theorem attempts_follow_the_listing sys args w entries hosts cmd certs st w' h st1 :
  certs_in sys = Ok entries ->
  startup sys args w = (Spawned hosts cmd certs st, w') ->
  certs = fst <$> filter (fun ri => negb (snd ri)) entries /\
  w' = w /\
  exists k,
    attempts (snd (task sys h cmd certs st1))
    = take k (fst <$> filter (fun ri => negb (snd ri)) entries) /\
    forall c, c ∈ attempts (snd (task sys h cmd certs st1)) ->
              (c, false) ∈ entries.
Proof.
  intros Hcerts Hstart.
  assert (Hc : certs = fst <$> filter (fun ri => negb (snd ri)) entries /\ w' = w).
  { unfold startup, readCerts in Hstart. rewrite Hcerts in Hstart.
    destruct (index args 0) as [prog|]; [|done].
    case_bool_decide; [done|].
    destruct (hosts_in sys) as [data|]; [|by destruct (hosts_opens sys)].
    destruct (unmarshal (env sys) data) as [cluster|]; [|done].
    destruct (cluster !! default [] (args !! 1)); [|done].
    by injection Hstart as <- <- <- <- <-. }
  destruct Hc as [Hc ->]. split; [done|]. split; [done|].
  destruct (attempts_prefix sys h cmd certs st1) as [k Hk].
  exists k. rewrite Hk, Hc. split; [done|]. intros c Hin.
  apply subseteq_take in Hin.
  apply list_elem_of_fmap in Hin as ([c' d] & -> & Hin).
  apply list_elem_of_filter in Hin as [Hd Hin]. cbn in Hd |- *.
  by destruct d.
Qed.

Lemma attempts_follow_the_listing_witness :
  attempts (snd (task system_with_subdir web_host "uptime"
                   ["a.pem" : gostring; "b.pem" : gostring]
                   (mkState web_text world0)))
  = ["a.pem" : gostring; "b.pem" : gostring].
Proof.
  destruct (attempts_follow_the_listing system_with_subdir
              ["cl" : gostring; "web" : gostring; "uptime" : gostring] world0
              [("a.pem" : gostring, false); ("old" : gostring, true);
               ("b.pem" : gostring, false)]
              [web_host] "uptime" ["a.pem" : gostring; "b.pem" : gostring]
              (mkState web_text world0) world0 web_host
              (mkState web_text world0))
    as (_ & _ & k & Hk & _).
  - reflexivity.
  - vm_compute. reflexivity.
  - vm_compute. reflexivity.
Defined.

(** ** The messages *)

Lemma pending_tail (qs : list (list message)) i m q :
  qs !! i = Some (m :: q) ->
  S (length (concat (<[i := q]> qs))) = length (concat qs).
Proof.
  revert i. induction qs as [|q0 qs IH]; intros i Hi; [done|].
  destruct i as [|i]; cbn in Hi.
  - injection Hi as ->.
    change (<[0 := q]> ((m :: q) :: qs)) with (q :: qs).
    cbn [concat]. rewrite !length_app. cbn. lia.
  - change (<[S i := q]> (q0 :: qs)) with (q0 :: <[i := q]> qs).
    cbn [concat]. rewrite !length_app.
    specialize (IH i Hi). lia.
Qed.

Lemma step_pending l a l' :
  step l a = Some l' ->
  pending l' + (if receives a then 1 else 0) = pending l.
Proof.
  unfold pending. intros H. destruct a; unfold step in H; cbn [receives].
  - destruct (signals l); [|done..]. destruct (notified sig); [|done].
    injection H as <-. cbn. lia.
  - destruct (signals l); [done| |done]. injection H as <-. cbn. lia.
  - destruct (looping l && cancelled l); [|done]. injection H as <-. cbn. lia.
  - destruct (looping l); [|done].
    destruct (sending l !! i) as [[|[err|p] q]|] eqn:Hi; try done.
    injection H as <-. cbn [sending].
    rewrite <- (pending_tail _ _ _ _ Hi). lia.
  - destruct (looping l && all_sent l); [|done]. injection H as <-. cbn. lia.
  - destruct (looping l); [|done].
    destruct (sending l !! i) as [[|[err|p] q]|] eqn:Hi; try done.
    destruct (GoNet.IndexByte p NL); injection H as <-; cbn [sending];
      rewrite <- (pending_tail _ _ _ _ Hi); lia.
  - destruct (looping l && all_sent l); [|done]. injection H as <-. cbn. lia.
Qed.

(** X30: the loop takes every message once: in a run, the messages that
    the goroutines still have to send and the messages that the
    [select] has received add up to the messages there were; the loop
    therefore receives at most as many messages as the goroutines had
    to send. *)
Theorem messages_are_received_once l sched l' :
  steps l sched = Some l' ->
  pending l' + length (filter (fun a => receives a = true) sched) = pending l.
Proof.
  revert l. induction sched as [|a sched IH]; intros l H; cbn in H.
  { injection H as <-. cbn. lia. }
  destruct (step l a) as [l1|] eqn:Hstep; [|done].
  specialize (IH l1 H). pose proof (step_pending _ _ _ Hstep) as Hp.
  destruct (receives a) eqn:Ha.
  - rewrite filter_cons_True by done. cbn [length]. lia.
  - rewrite filter_cons_False by (by rewrite Ha). lia.
Qed.

Lemma messages_are_received_once_witness :
  exists l',
    steps loop_second_key [SelectErrs 0; SelectOut 0; SelectErrsClosed] = Some l'
    /\ pending l' + 2 = 2.
Proof.
  destruct (steps loop_second_key [SelectErrs 0; SelectOut 0; SelectErrsClosed])
    as [l'|] eqn:Hsteps; [|vm_compute in Hsteps; discriminate].
  exists l'. split; [reflexivity|].
  exact (messages_are_received_once loop_second_key
           [SelectErrs 0; SelectOut 0; SelectErrsClosed] l' Hsteps).
Defined.
